(** * Prompt Reverse Engineer: a shallow embedding of [src/App.tsx]

    The application is a single React component.  Its state is the tuple of
    [useState] cells, its behaviour is the set of event handlers and the two
    asynchronous model calls.  This file embeds

    - the JavaScript values the handlers manipulate (strings as sequences of
      UTF-16 code units, JSON values, plain objects in own-property order);
    - the builtins the handlers call ([trim], [startsWith], [split],
      [Object.entries], [JSON.parse], [JSON.stringify]);
    - the handlers themselves, as functions on an explicit application state
      that also records the effects a handler performs (console, clipboard,
      file reader, model requests, timers);
    - [renderJson], as a function to a React element tree;

    and then states and proves the properties of the specification. *)

From Stdlib Require Import List Bool Arith NArith ZArith Lia String Ascii.
From Stdlib Require Decimal DecimalFacts DecimalNat.
Import ListNotations.

Set Warnings "-register-all".

(* ================================================================== *)
(** * JavaScript strings *)
(* ================================================================== *)

Module JsString.

(** A JavaScript string is a finite sequence of 16-bit code units. *)
Definition code_unit := N.
Definition jsstring := list code_unit.

(** Source literals are ASCII; [u] turns a literal into its code units. *)
Definition u (s : string) : jsstring :=
  map N_of_ascii (list_ascii_of_string s).

Fixpoint eqb (a b : jsstring) : bool :=
  match a, b with
  | [], [] => true
  | x :: a', y :: b' => N.eqb x y && eqb a' b'
  | _, _ => false
  end.

(** ECMAScript [WhiteSpace] and [LineTerminator] code points, the set
    [String.prototype.trim] strips. *)
Definition isWhiteSpace (c : code_unit) : bool :=
  (N.eqb c 9 || N.eqb c 10 || N.eqb c 11 || N.eqb c 12 || N.eqb c 13
   || N.eqb c 32 || N.eqb c 160 || N.eqb c 5760
   || (N.leb 8192 c && N.leb c 8202)
   || N.eqb c 8232 || N.eqb c 8233 || N.eqb c 8239 || N.eqb c 8287
   || N.eqb c 12288 || N.eqb c 65279)%bool.

Fixpoint trimStart (s : jsstring) : jsstring :=
  match s with
  | c :: r => if isWhiteSpace c then trimStart r else s
  | [] => []
  end.

Definition trimEnd (s : jsstring) : jsstring := rev (trimStart (rev s)).

(** [s.trim()] *)
Definition trim (s : jsstring) : jsstring := trimEnd (trimStart s).

(** [s.startsWith(p)] *)
Fixpoint startsWith (p s : jsstring) : bool :=
  match p, s with
  | [], _ => true
  | x :: p', y :: s' => N.eqb x y && startsWith p' s'
  | _ :: _, [] => false
  end.

(** [s.split(sep)] for a one-code-unit separator; the result is never
    empty: the empty string splits into one empty piece. *)
Fixpoint split (sep : code_unit) (s : jsstring) : list jsstring :=
  match s with
  | [] => [[]]
  | c :: r =>
      if N.eqb c sep then [] :: split sep r
      else match split sep r with
           | h :: t => (c :: h) :: t
           | [] => [[c]]
           end
  end.

(** Decimal digits of a natural number, as [String(n)] prints an index. *)
Fixpoint of_uint (d : Decimal.uint) : jsstring :=
  match d with
  | Decimal.Nil => []
  | Decimal.D0 d => 48%N :: of_uint d
  | Decimal.D1 d => 49%N :: of_uint d
  | Decimal.D2 d => 50%N :: of_uint d
  | Decimal.D3 d => 51%N :: of_uint d
  | Decimal.D4 d => 52%N :: of_uint d
  | Decimal.D5 d => 53%N :: of_uint d
  | Decimal.D6 d => 54%N :: of_uint d
  | Decimal.D7 d => 55%N :: of_uint d
  | Decimal.D8 d => 56%N :: of_uint d
  | Decimal.D9 d => 57%N :: of_uint d
  end.

Definition of_N (n : N) : jsstring := of_uint (N.to_uint n).
Definition of_nat (n : nat) : jsstring := of_uint (Nat.to_uint n).

(** Drops leading ["0"] digits (of a reversed digit string: trailing). *)
Fixpoint trimZeros (s : jsstring) : jsstring :=
  match s with
  | c :: r => if N.eqb c 48 then trimZeros r else s
  | [] => []
  end.

(** The spec's phrase for an instruction that carries no text. *)
Definition whitespace_only (s : jsstring) : bool := forallb isWhiteSpace s.

End JsString.
Export JsString.

(* ================================================================== *)
(** * JSON values and plain objects *)
(* ================================================================== *)

(** The values [JSON.parse] can build and a [useState<any | null>] cell can
    hold.  A number is carried as the decimal [m * 10 ^ e] its literal
    denotes (the rounding to binary64 is left out: the program never
    computes with a number, it tests truthiness and hands the value on).
    An object is its list of own properties in property order. *)
Inductive value : Type :=
| JNull
| JBool (b : bool)
| JNum (m e : Z)
| JStr (s : jsstring)
| JArr (items : list value)
| JObj (props : list (jsstring * value)).

Definition props := list (jsstring * value).

(** [ToBoolean]; [None] stands for [undefined]. *)
Definition ToBoolean (v : value) : bool :=
  match v with
  | JNull => false
  | JBool b => b
  | JNum m _ => negb (Z.eqb m 0)
  | JStr s => match s with [] => false | _ => true end
  | JArr _ | JObj _ => true
  end.

Definition truthy (o : option value) : bool :=
  match o with Some v => ToBoolean v | None => false end.

(** [typeof v === 'object'] *)
Definition typeof_object (v : value) : bool :=
  match v with
  | JNull | JArr _ | JObj _ => true
  | _ => false
  end.

Fixpoint lookup (k : jsstring) (o : props) : option value :=
  match o with
  | [] => None
  | (k', v) :: o' => if JsString.eqb k k' then Some v else lookup k o'
  end.

Definition keys (o : props) : list jsstring := map fst o.

(** Index keys ["0"], ["1"], ... of an array or string of length [n]. *)
Definition index_keys (n : nat) : list jsstring := map of_nat (seq 0 n).

(** [Object.entries(v)] for a value that is not [null] (both call sites
    test that first): own enumerable string-keyed properties, in order. *)
Definition Object_entries (v : value) : props :=
  match v with
  | JObj o => o
  | JArr xs => combine (index_keys (List.length xs)) xs
  | JStr s => combine (index_keys (List.length s)) (map (fun c => JStr [c]) s)
  | JNull | JBool _ | JNum _ _ => []
  end.

(** [v[k]] for a key that no builtin prototype defines (the program reads
    [error], [en] and [zh] only); [None] is [undefined]. *)
Definition Get (v : value) (k : jsstring) : option value :=
  lookup k (Object_entries v).

(** [k in v] for an object [v] and such a key. *)
Definition HasProperty (v : value) (k : jsstring) : bool :=
  match lookup k (Object_entries v) with Some _ => true | None => false end.

(** [CreateDataProperty] keeps own properties in ECMAScript order: array
    indices ascending first, then the other keys in creation order. *)
Definition digit_char (c : code_unit) : bool := N.leb 48 c && N.leb c 57.

Definition decimal_value (acc : N) (k : jsstring) : N :=
  fold_left (fun a d => (a * 10 + (d - 48))%N) k acc.

(** A canonical numeric string: digits, no leading zero unless it is "0". *)
Definition canonical_numeric (k : jsstring) : bool :=
  match k with
  | [] => false
  | c :: r =>
      forallb digit_char k
      && (negb (N.eqb c 48) || match r with [] => true | _ => false end)
  end.

Definition array_index (k : jsstring) : option N :=
  if canonical_numeric k then
    let n := decimal_value 0 k in
    if N.ltb n 4294967295 then Some n else None
  else None.

Fixpoint replace (k : jsstring) (v : value) (o : props) : props :=
  match o with
  | [] => []
  | (k', v') :: o' =>
      if JsString.eqb k k' then (k', v) :: o' else (k', v') :: replace k v o'
  end.

Fixpoint insert_index (i : N) (k : jsstring) (v : value) (o : props) : props :=
  match o with
  | [] => [(k, v)]
  | (k', v') :: o' =>
      match array_index k' with
      | Some j => if N.ltb j i then (k', v') :: insert_index i k v o'
                  else (k, v) :: o
      | None => (k, v) :: o
      end
  end.

Definition obj_define (k : jsstring) (v : value) (o : props) : props :=
  match lookup k o with
  | Some _ => replace k v o
  | None =>
      match array_index k with
      | Some i => insert_index i k v o
      | None => o ++ [(k, v)]
      end
  end.

(** The assignment [o[k] = v] on a plain object literal.  An own property
    is overwritten; otherwise a new one is created, except for the key
    [__proto__], which reaches the accessor of [Object.prototype] and
    creates no own property. *)
Definition obj_set (k : jsstring) (v : value) (o : props) : props :=
  match lookup k o with
  | Some _ => replace k v o
  | None => if JsString.eqb k (u "__proto__") then o else obj_define k v o
  end.

(* ================================================================== *)
(** * The JSON builtins *)
(* ================================================================== *)

Module JSON.

(** ** [JSON.stringify(v, null, 2)] *)

Definition hex_digit (n : N) : code_unit :=
  if N.ltb n 10 then (48 + n)%N else (87 + n)%N.

(** The escape [\uXXXX], in lower-case hexadecimal. *)
Definition u_escape (c : code_unit) : jsstring :=
  [92; 117; hex_digit (c / 4096); hex_digit ((c / 256) mod 16);
   hex_digit ((c / 16) mod 16); hex_digit (c mod 16)]%N.

Definition is_high_surrogate (c : code_unit) : bool :=
  N.leb 55296 c && N.leb c 56319.
Definition is_low_surrogate (c : code_unit) : bool :=
  N.leb 56320 c && N.leb c 57343.

Fixpoint quote_body (s : jsstring) : jsstring :=
  match s with
  | [] => []
  | c :: r =>
      if N.eqb c 8 then u "\b" ++ quote_body r
      else if N.eqb c 9 then u "\t" ++ quote_body r
      else if N.eqb c 10 then u "\n" ++ quote_body r
      else if N.eqb c 12 then u "\f" ++ quote_body r
      else if N.eqb c 13 then u "\r" ++ quote_body r
      else if N.eqb c 34 then [92; 34]%N ++ quote_body r
      else if N.eqb c 92 then [92; 92]%N ++ quote_body r
      else if N.ltb c 32 then u_escape c ++ quote_body r
      else if is_high_surrogate c then
        match r with
        | d :: r' =>
            if is_low_surrogate d then c :: d :: quote_body r'
            else u_escape c ++ quote_body r
        | [] => u_escape c
        end
      else if is_low_surrogate c then u_escape c ++ quote_body r
      else c :: quote_body r
  end.

(** [QuoteJSONString] *)
Definition quote (s : jsstring) : jsstring :=
  [34%N] ++ quote_body s ++ [34%N].

(** [Number::toString] of the decimal [m * 10 ^ e]. *)
Definition Number_toString (m e : Z) : jsstring :=
  if Z.eqb m 0 then u "0"
  else
    let all := of_N (Z.to_N (Z.abs m)) in
    let ds := List.rev (trimZeros (List.rev all)) in
    let k := Z.of_nat (List.length ds) in
    let n := (Z.of_nat (List.length all) + e)%Z in
    let body :=
      if (Z.leb k n && Z.leb n 21)%bool then
        ds ++ repeat 48%N (Z.to_nat (n - k))
      else if (Z.ltb 0 n && Z.leb n 21)%bool then
        firstn (Z.to_nat n) ds ++ u "." ++ skipn (Z.to_nat n) ds
      else if (Z.ltb (-6) n && Z.leb n 0)%bool then
        u "0." ++ repeat 48%N (Z.to_nat (- n)) ++ ds
      else
        let ex := (n - 1)%Z in
        let mant :=
          match ds with
          | [d] => [d]
          | _ => firstn 1 ds ++ u "." ++ skipn 1 ds
          end in
        mant ++ u "e" ++ (if Z.ltb ex 0 then u "-" else u "+")
             ++ of_N (Z.to_N (Z.abs ex)) in
    (if Z.ltb m 0 then u "-" else []) ++ body.

Fixpoint join (sep : jsstring) (l : list jsstring) : jsstring :=
  match l with
  | [] => []
  | [x] => x
  | x :: r => x ++ sep ++ join sep r
  end.

Definition gap : jsstring := u "  ".
Definition newline : jsstring := [10%N].

(** [SerializeJSONProperty] with a non-empty gap. *)
Fixpoint serialize (indent : jsstring) (v : value) {struct v} : jsstring :=
  match v with
  | JNull => u "null"
  | JBool true => u "true"
  | JBool false => u "false"
  | JNum m e => Number_toString m e
  | JStr s => quote s
  | JArr [] => u "[]"
  | JArr xs =>
      let stepback := indent in
      let indent := stepback ++ gap in
      u "[" ++ newline ++ indent
        ++ join (u "," ++ newline ++ indent)
                (map (fun x => serialize indent x) xs)
        ++ newline ++ stepback ++ u "]"
  | JObj [] => u "{}"
  | JObj ps =>
      let stepback := indent in
      let indent := stepback ++ gap in
      u "{" ++ newline ++ indent
        ++ join (u "," ++ newline ++ indent)
                (map (fun kv => quote (fst kv) ++ u ": "
                                  ++ serialize indent (snd kv)) ps)
        ++ newline ++ stepback ++ u "}"
  end.

Definition stringify (v : value) : jsstring := serialize [] v.

(** ** [JSON.parse(text)]

    A scanner that reads one code unit at a time and a pushdown recogniser
    over its tokens; both are folds, so the parser is total.  [None] is the
    [SyntaxError] the builtin throws. *)

Inductive token : Type :=
| TLBrace | TRBrace | TLBracket | TRBracket | TColon | TComma
| TStr (s : jsstring)
| TScalar (v : value).

Inductive numphase : Type :=
| NMinus | NZero | NInt | NDot | NFrac | NE | NESign | NExp.

Inductive lexst : Type :=
| LIdle
| LLit (rest : jsstring) (v : value)
| LStr (acc : jsstring)
| LEsc (acc : jsstring)
| LHex (acc : jsstring) (n : nat) (h : N)
| LNum (ph : numphase) (neg : bool) (m frac : Z) (eneg : bool) (ex : Z).

Definition is_digit (c : code_unit) : bool := N.leb 48 c && N.leb c 57.
Definition digit (c : code_unit) : Z := Z.of_N (c - 48).

Definition hex_value (c : code_unit) : option N :=
  if is_digit c then Some (c - 48)%N
  else if N.leb 97 c && N.leb c 102 then Some (c - 87)%N
  else if N.leb 65 c && N.leb c 70 then Some (c - 55)%N
  else None.

Definition number_token (neg : bool) (m frac : Z) (eneg : bool) (ex : Z)
  : token :=
  TScalar (JNum (if neg then - m else m)
                ((if eneg then - ex else ex) - frac)).

Definition idle_step (c : code_unit) : option (list token * lexst) :=
  if N.eqb c 9 || N.eqb c 10 || N.eqb c 13 || N.eqb c 32
  then Some ([], LIdle)
  else if N.eqb c 123 then Some ([TLBrace], LIdle)
  else if N.eqb c 125 then Some ([TRBrace], LIdle)
  else if N.eqb c 91 then Some ([TLBracket], LIdle)
  else if N.eqb c 93 then Some ([TRBracket], LIdle)
  else if N.eqb c 58 then Some ([TColon], LIdle)
  else if N.eqb c 44 then Some ([TComma], LIdle)
  else if N.eqb c 34 then Some ([], LStr [])
  else if N.eqb c 45 then Some ([], LNum NMinus true 0 0 false 0)
  else if N.eqb c 48 then Some ([], LNum NZero false 0 0 false 0)
  else if is_digit c then Some ([], LNum NInt false (digit c) 0 false 0)
  else if N.eqb c 116 then Some ([], LLit (u "rue") (JBool true))
  else if N.eqb c 102 then Some ([], LLit (u "alse") (JBool false))
  else if N.eqb c 110 then Some ([], LLit (u "ull") JNull)
  else None.

Definition is_e (c : code_unit) : bool := N.eqb c 101 || N.eqb c 69.

Definition lex_step (st : lexst) (c : code_unit)
  : option (list token * lexst) :=
  match st with
  | LIdle => idle_step c
  | LLit rest v =>
      match rest with
      | [] => None
      | x :: rest' =>
          if N.eqb c x then
            match rest' with
            | [] => Some ([TScalar v], LIdle)
            | _ => Some ([], LLit rest' v)
            end
          else None
      end
  | LStr acc =>
      if N.eqb c 34 then Some ([TStr (List.rev acc)], LIdle)
      else if N.eqb c 92 then Some ([], LEsc acc)
      else if N.ltb c 32 then None
      else Some ([], LStr (c :: acc))
  | LEsc acc =>
      if N.eqb c 34 then Some ([], LStr (34%N :: acc))
      else if N.eqb c 92 then Some ([], LStr (92%N :: acc))
      else if N.eqb c 47 then Some ([], LStr (47%N :: acc))
      else if N.eqb c 98 then Some ([], LStr (8%N :: acc))
      else if N.eqb c 102 then Some ([], LStr (12%N :: acc))
      else if N.eqb c 110 then Some ([], LStr (10%N :: acc))
      else if N.eqb c 114 then Some ([], LStr (13%N :: acc))
      else if N.eqb c 116 then Some ([], LStr (9%N :: acc))
      else if N.eqb c 117 then Some ([], LHex acc 0 0)
      else None
  | LHex acc n h =>
      match hex_value c with
      | None => None
      | Some d =>
          let h' := (h * 16 + d)%N in
          if Nat.eqb n 3 then Some ([], LStr (h' :: acc))
          else Some ([], LHex acc (S n) h')
      end
  | LNum ph neg m frac eneg ex =>
      let finish :=
        match idle_step c with
        | Some (toks, st') =>
            Some (number_token neg m frac eneg ex :: toks, st')
        | None => None
        end in
      match ph with
      | NMinus =>
          if N.eqb c 48 then Some ([], LNum NZero neg 0 0 false 0)
          else if is_digit c then Some ([], LNum NInt neg (digit c) 0 false 0)
          else None
      | NZero =>
          if N.eqb c 46 then Some ([], LNum NDot neg m frac eneg ex)
          else if is_e c then Some ([], LNum NE neg m frac eneg ex)
          else finish
      | NInt =>
          if is_digit c
          then Some ([], LNum NInt neg (m * 10 + digit c) frac eneg ex)
          else if N.eqb c 46 then Some ([], LNum NDot neg m frac eneg ex)
          else if is_e c then Some ([], LNum NE neg m frac eneg ex)
          else finish
      | NDot =>
          if is_digit c
          then Some ([], LNum NFrac neg (m * 10 + digit c) (frac + 1) eneg ex)
          else None
      | NFrac =>
          if is_digit c
          then Some ([], LNum NFrac neg (m * 10 + digit c) (frac + 1) eneg ex)
          else if is_e c then Some ([], LNum NE neg m frac eneg ex)
          else finish
      | NE =>
          if N.eqb c 43 then Some ([], LNum NESign neg m frac false ex)
          else if N.eqb c 45 then Some ([], LNum NESign neg m frac true ex)
          else if is_digit c
          then Some ([], LNum NExp neg m frac eneg (digit c))
          else None
      | NESign =>
          if is_digit c
          then Some ([], LNum NExp neg m frac eneg (digit c))
          else None
      | NExp =>
          if is_digit c
          then Some ([], LNum NExp neg m frac eneg (ex * 10 + digit c))
          else finish
      end
  end.

(** End of input: a number may end here, a string or literal may not. *)
Definition lex_end (st : lexst) : option (list token) :=
  match st with
  | LIdle => Some []
  | LNum (NZero | NInt | NFrac | NExp) neg m frac eneg ex =>
      Some [number_token neg m frac eneg ex]
  | _ => None
  end.

Fixpoint lex (st : lexst) (s : jsstring) : option (list token) :=
  match s with
  | [] => lex_end st
  | c :: r =>
      match lex_step st c with
      | None => None
      | Some (toks, st') =>
          match lex st' r with
          | None => None
          | Some rest => Some (toks ++ rest)
          end
      end
  end.

(** The recogniser: what is expected next, and the open containers. *)
Inductive expect : Type :=
| EValue | EArrStart | EObjStart | EObjKey | EColon | EAfter
| EDone (v : value).

Inductive frame : Type :=
| FArr (items : list value)
| FObj (o : props)
| FKey (o : props) (k : jsstring).

Definition config := (expect * list frame)%type.

(** A value is complete: it closes the document or joins its container. *)
Definition complete (v : value) (st : list frame) : option config :=
  match st with
  | [] => Some (EDone v, [])
  | FArr items :: st' => Some (EAfter, FArr (v :: items) :: st')
  | FKey o k :: st' => Some (EAfter, FObj (obj_define k v o) :: st')
  | FObj _ :: _ => None
  end.

Definition open_value (t : token) (st : list frame) : option config :=
  match t with
  | TScalar v => complete v st
  | TStr s => complete (JStr s) st
  | TLBracket => Some (EArrStart, FArr [] :: st)
  | TLBrace => Some (EObjStart, FObj [] :: st)
  | _ => None
  end.

Definition parse_step (c : config) (t : token) : option config :=
  let (e, st) := c in
  match e, t, st with
  | EValue, _, _ => open_value t st
  | EArrStart, TRBracket, FArr items :: st' =>
      complete (JArr (List.rev items)) st'
  | EArrStart, _, _ => open_value t st
  | (EObjStart | EObjKey), TStr k, FObj o :: st' =>
      Some (EColon, FKey o k :: st')
  | EObjStart, TRBrace, FObj o :: st' => complete (JObj o) st'
  | EColon, TColon, _ => Some (EValue, st)
  | EAfter, TComma, FArr _ :: _ => Some (EValue, st)
  | EAfter, TRBracket, FArr items :: st' =>
      complete (JArr (List.rev items)) st'
  | EAfter, TComma, FObj _ :: _ => Some (EObjKey, st)
  | EAfter, TRBrace, FObj o :: st' => complete (JObj o) st'
  | _, _, _ => None
  end.

Fixpoint parse_tokens (c : config) (ts : list token) : option value :=
  match ts with
  | [] => match c with (EDone v, _) => Some v | _ => None end
  | t :: r =>
      match parse_step c t with
      | Some c' => parse_tokens c' r
      | None => None
      end
  end.

Definition parse (text : jsstring) : option value :=
  match lex LIdle text with
  | Some ts => parse_tokens (EValue, []) ts
  | None => None
  end.

End JSON.

(* ================================================================== *)
(** * The component: state, effects, requests *)
(* ================================================================== *)

(** The copy modes ['all' | 'en' | 'zh']. *)
Inductive mode : Type := All | En | Zh.

Definition mode_key (m : mode) : jsstring :=
  match m with All => u "all" | En => u "en" | Zh => u "zh" end.

(** What the handlers read of a [File]. *)
Record File : Type := { file_name : jsstring; file_type : jsstring }.

(** The response schema objects handed to the model service. *)
Inductive schema_type : Type := STRING | OBJECT.

Inductive schema : Type :=
| Schema (type : schema_type)
         (properties : list (jsstring * schema))
         (required : list jsstring)
         (description : option jsstring).

Definition with_description (s : schema) (d : string) : schema :=
  match s with Schema t ps r _ => Schema t ps r (Some (u d)) end.

Definition fieldSchema : schema :=
  Schema OBJECT
         [(u "en", Schema STRING [] [] None);
          (u "zh", Schema STRING [] [] None)]
         [u "en"; u "zh"]
         None.

Definition promptSchema : schema :=
  Schema OBJECT
    [(u "subject", with_description fieldSchema
        "The main subject(s) of the image in detail.");
     (u "style", with_description fieldSchema
        "The artistic style, medium, or aesthetic.");
     (u "lighting", with_description fieldSchema
        "The lighting setup and mood.");
     (u "composition", with_description fieldSchema
        "The framing and composition.");
     (u "shootingAngle", with_description fieldSchema
        "Shooting angle (e.g., low angle, high angle, eye level).");
     (u "lensSettings", with_description fieldSchema
        "Lens settings (e.g., aperture, depth of field).");
     (u "focalLength", with_description fieldSchema
        "Focal length (e.g., 24mm, 50mm, 85mm, macro).");
     (u "imageDimensions", with_description fieldSchema
        "Image dimensions or aspect ratio (e.g., 16:9, 4:3, 1:1).");
     (u "colors", with_description fieldSchema
        "The dominant color palette and tones.");
     (u "fullPrompt", with_description fieldSchema
        "A complete, cohesive prompt combining all these elements.")]
    [u "subject"; u "style"; u "lighting"; u "composition";
     u "shootingAngle"; u "lensSettings"; u "focalLength";
     u "imageDimensions"; u "colors"; u "fullPrompt"]
    None.

(** The argument of [ai.models.generateContent]. *)
Inductive part : Type :=
| InlineData (data : option jsstring) (mimeType : jsstring)
| TextPart (text : jsstring).

Record request : Type := {
  model : jsstring;
  contents : list part;
  responseMimeType : jsstring;
  responseSchema : schema
}.

(** What a [try] block can catch here: a rejected model call, or the
    [SyntaxError] of [JSON.parse]. *)
Inductive exn : Type :=
| ApiError (reason : jsstring)
| SyntaxError (text : jsstring).

Inductive completion (A : Type) : Type :=
| Normal (a : A)
| Throw (e : exn).
Arguments Normal {A} a.
Arguments Throw {A} e.

(** How an awaited [generateContent] settles; [response.text] may be
    [undefined]. *)
Inductive settled : Type :=
| Fulfilled (text : option jsstring)
| Rejected (reason : jsstring).

(** The effects a handler performs on its environment, in order. *)
Inductive effect : Type :=
| PreventDefault
| ReadAsDataURL (file : File)
| GenerateContent (req : request)
| ConsoleError (label : jsstring) (e : exn)
| ClipboardWrite (text : jsstring)
| SetTimeout_clearCopied (ms : N).

(** The [useState] cells. *)
Record State : Type := {
  image : option jsstring;
  isDragging : bool;
  isLoading : bool;
  isModifying : bool;
  result : value;
  copied : option mode;
  modifyInstruction : jsstring
}.

(** The component in its environment: the cells, the value of the file
    input behind [fileInputRef] ([None] while it is not mounted) and the
    effects performed so far. *)
Record App : Type := {
  ui : State;
  fileInput : option jsstring;
  trace : list effect
}.

Definition initial : App :=
  {| ui := {| image := None; isDragging := false; isLoading := false;
              isModifying := false; result := JNull; copied := None;
              modifyInstruction := [] |};
     fileInput := Some [];
     trace := [] |}.

Definition with_ui (f : State -> State) (a : App) : App :=
  {| ui := f (ui a); fileInput := fileInput a; trace := trace a |}.

Definition setImage (x : option jsstring) : App -> App :=
  with_ui (fun s =>
    {| image := x; isDragging := isDragging s; isLoading := isLoading s;
       isModifying := isModifying s; result := result s; copied := copied s;
       modifyInstruction := modifyInstruction s |}).

Definition setIsDragging (x : bool) : App -> App :=
  with_ui (fun s =>
    {| image := image s; isDragging := x; isLoading := isLoading s;
       isModifying := isModifying s; result := result s; copied := copied s;
       modifyInstruction := modifyInstruction s |}).

Definition setIsLoading (x : bool) : App -> App :=
  with_ui (fun s =>
    {| image := image s; isDragging := isDragging s; isLoading := x;
       isModifying := isModifying s; result := result s; copied := copied s;
       modifyInstruction := modifyInstruction s |}).

Definition setIsModifying (x : bool) : App -> App :=
  with_ui (fun s =>
    {| image := image s; isDragging := isDragging s; isLoading := isLoading s;
       isModifying := x; result := result s; copied := copied s;
       modifyInstruction := modifyInstruction s |}).

Definition setResult (x : value) : App -> App :=
  with_ui (fun s =>
    {| image := image s; isDragging := isDragging s; isLoading := isLoading s;
       isModifying := isModifying s; result := x; copied := copied s;
       modifyInstruction := modifyInstruction s |}).

Definition setCopied (x : option mode) : App -> App :=
  with_ui (fun s =>
    {| image := image s; isDragging := isDragging s; isLoading := isLoading s;
       isModifying := isModifying s; result := result s; copied := x;
       modifyInstruction := modifyInstruction s |}).

Definition setModifyInstruction (x : jsstring) : App -> App :=
  with_ui (fun s =>
    {| image := image s; isDragging := isDragging s; isLoading := isLoading s;
       isModifying := isModifying s; result := result s; copied := copied s;
       modifyInstruction := x |}).

Definition emit (e : effect) (a : App) : App :=
  {| ui := ui a; fileInput := fileInput a; trace := trace a ++ [e] |}.

Definition preventDefault : App -> App := emit PreventDefault.

Definition console_error (label : string) (e : exn) : App -> App :=
  emit (ConsoleError (u label) e).

(** Statements run left to right. *)
Notation "a |> f" := (f a) (at level 50, left associativity, only parsing).

(* ================================================================== *)
(** * The handlers *)
(* ================================================================== *)

Definition handleDragOver (a : App) : App :=
  a |> preventDefault |> setIsDragging true.

Definition handleDragLeave (a : App) : App :=
  a |> preventDefault |> setIsDragging false.

(** ** The analysis call

    [analyzeImage] is [async]: it runs up to its [await] when called
    ([analyzeImage_begin]) and from the [await] to its end when the model
    call settles ([analyzeImage_settle]). *)

Definition model_name : jsstring := u "gemini-3-flash-preview".

Definition analysis_instruction : jsstring :=
  u "Analyze this image in extreme detail. Provide a comprehensive prompt that could be used to recreate this image using an AI image generator. Include specific details about the subject, style, lighting, composition, shooting angle, lens settings, focal length, image dimensions/aspect ratio, and colors. Provide both English and Chinese translations for each field.".

Definition analysis_request (base64Data mimeType : jsstring) : request :=
  let base64String := nth_error (split 44%N base64Data) 1 in
  {| model := model_name;
     contents := [InlineData base64String mimeType;
                  TextPart analysis_instruction];
     responseMimeType := u "application/json";
     responseSchema := promptSchema |}.

Definition analyzeImage_begin (base64Data mimeType : jsstring) (a : App)
  : App :=
  a |> setIsLoading true
    |> setResult JNull
    |> emit (GenerateContent (analysis_request base64Data mimeType)).

(** [response.text?.trim() || "{}"] *)
Definition jsonStr (text : option jsstring) : jsstring :=
  match text with
  | Some t => match trim t with [] => u "{}" | t' => t' end
  | None => u "{}"
  end.

(** The part of either [try] block after the call has settled: the
    rejection is thrown at the [await], else the text is parsed. *)
Definition await_json (o : settled) : completion value :=
  match o with
  | Rejected reason => Throw (ApiError reason)
  | Fulfilled text =>
      match JSON.parse (jsonStr text) with
      | Some v => Normal v
      | None => Throw (SyntaxError (jsonStr text))
      end
  end.

Definition analysis_error : value :=
  JObj [(u "error", JStr (u "Failed to analyze image. Please try again."))].

Definition analyzeImage_settle (o : settled) (a : App) : App :=
  (match await_json o with
   | Normal v => a |> setResult v
   | Throw e => a |> console_error "Error analyzing image:" e
                  |> setResult analysis_error
   end)
  |> setIsLoading false.

(** A whole call, with nothing else happening while it is in flight. *)
Definition analyzeImage (base64Data mimeType : jsstring) (o : settled)
  (a : App) : App :=
  a |> analyzeImage_begin base64Data mimeType |> analyzeImage_settle o.

(** ** Image ingestion *)

Definition processFile (file : File) (a : App) : App :=
  a |> emit (ReadAsDataURL file).

(** [reader.onload], called with the data URL the reader produced. *)
Definition processFile_onload (file : File) (base64 : jsstring) (a : App)
  : App :=
  a |> setImage (Some base64) |> analyzeImage_begin base64 (file_type file).

Definition handleDrop (files : list File) (a : App) : App :=
  let a := a |> preventDefault |> setIsDragging false in
  match nth_error files 0 with
  | Some file =>
      if startsWith (u "image/") (file_type file) then processFile file a
      else a
  | None => a
  end.

(** [e.target.files] may be [null]. *)
Definition handleFileChange (files : option (list File)) (a : App) : App :=
  match files with
  | Some fs =>
      match nth_error fs 0 with
      | Some file => processFile file a
      | None => a
      end
  | None => a
  end.

(** ** The modification call *)

(** [!modifyInstruction.trim() || !result || result.error] *)
Definition handleModify_returns (s : State) : bool :=
  negb (ToBoolean (JStr (trim (modifyInstruction s))))
  || negb (ToBoolean (result s))
  || truthy (Get (result s) (u "error")).

Definition modify_instruction (result : value) (instruction : jsstring)
  : jsstring :=
  u "Here is the current image prompt JSON:" ++ JSON.newline
    ++ JSON.stringify result ++ JSON.newline ++ JSON.newline
    ++ u "User modification request: " ++ [34%N] ++ instruction ++ [34%N]
    ++ JSON.newline ++ JSON.newline
    ++ u "Please update the JSON according to the user's request. Keep the exact same JSON structure, updating both the English ('en') and Chinese ('zh') fields to reflect the changes.".

Definition modify_request (s : State) : request :=
  {| model := model_name;
     contents := [TextPart (modify_instruction (result s)
                                               (modifyInstruction s))];
     responseMimeType := u "application/json";
     responseSchema := promptSchema |}.

Definition handleModify_begin (a : App) : App :=
  if handleModify_returns (ui a) then a
  else a |> setIsModifying true
         |> emit (GenerateContent (modify_request (ui a))).

Definition handleModify_settle (o : settled) (a : App) : App :=
  (match await_json o with
   | Normal v => a |> setResult v |> setModifyInstruction []
   | Throw e => a |> console_error "Error modifying prompt:" e
   end)
  |> setIsModifying false.

(** A whole call, with nothing else happening while it is in flight. *)
Definition handleModify (o : settled) (a : App) : App :=
  if handleModify_returns (ui a) then a
  else a |> handleModify_begin |> handleModify_settle o.

(** ** Clipboard export *)

(** The value stored for one entry: [value[mode]] when [value] is an
    object that has the key, else [value] itself. *)
Definition filtered_value (k : jsstring) (v : value) : value :=
  if ToBoolean v && typeof_object v && HasProperty v k then
    match Get v k with Some x => x | None => v end
  else v.

(** The loop over [Object.entries(result)] that fills [filteredResult]. *)
Definition filteredResult (m : mode) (result : value) : props :=
  fold_left
    (fun acc kv => obj_set (fst kv) (filtered_value (mode_key m) (snd kv)) acc)
    (Object_entries result) [].

Definition textToCopy (m : mode) (result : value) : jsstring :=
  match m with
  | All => JSON.stringify result
  | _ => JSON.stringify (JObj (filteredResult m result))
  end.

Definition copyToClipboard (m : mode) (a : App) : App :=
  if negb (ToBoolean (result (ui a))) then a
  else a |> emit (ClipboardWrite (textToCopy m (result (ui a))))
         |> setCopied (Some m)
         |> emit (SetTimeout_clearCopied 2000).

(** The timer callback [() => setCopied(null)]. *)
Definition copied_timeout (a : App) : App := a |> setCopied None.

Definition reset (a : App) : App :=
  let a := a |> setImage None |> setResult JNull |> setModifyInstruction [] in
  {| ui := ui a;
     fileInput := match fileInput a with Some _ => Some [] | None => None end;
     trace := trace a |}.

(** ** The component as a transition system

    Everything that can happen to the component: a user event, or a
    callback of the file reader, of a model call or of the timer. *)
Inductive event : Type :=
| DragOver
| DragLeave
| Drop (files : list File)
| FileChange (files : option (list File))
| ReaderLoad (file : File) (base64 : jsstring)
| AnalysisSettled (o : settled)
| InstructionTyped (text : jsstring)
| ModifyRequested
| ModifySettled (o : settled)
| CopyClicked (m : mode)
| CopiedTimeout
| ResetClicked.

Definition step (e : event) (a : App) : App :=
  match e with
  | DragOver => handleDragOver a
  | DragLeave => handleDragLeave a
  | Drop files => handleDrop files a
  | FileChange files => handleFileChange files a
  | ReaderLoad file base64 => processFile_onload file base64 a
  | AnalysisSettled o => analyzeImage_settle o a
  | InstructionTyped text => setModifyInstruction text a
  | ModifyRequested => handleModify_begin a
  | ModifySettled o => handleModify_settle o a
  | CopyClicked m => copyToClipboard m a
  | CopiedTimeout => copied_timeout a
  | ResetClicked => reset a
  end.

Definition run (es : list event) (a : App) : App :=
  fold_left (fun a e => step e a) es a.

(* ================================================================== *)
(** * The result renderer *)
(* ================================================================== *)

(** React children: literal JSX text, an expression in braces that
    evaluates to a JavaScript value, an element, or an array of nodes. *)
Inductive node : Type :=
| Text (s : jsstring)
| Expr (v : value)
| Elem (tag : jsstring) (className key : option jsstring)
       (children : list node)
| Nodes (l : list node).

Definition span (className : string) (children : list node) : node :=
  Elem (u "span") (Some (u className)) None children.

(** The leaf: the value between two double quotes. *)
Definition render_leaf (obj : value) : node :=
  span "text-emerald-300" [Text [34%N]; Expr obj; Text [34%N]].

(** One entry of [entries.map]: its [div], given the rendered value. *)
Definition render_entry (len index : nat) (key : jsstring) (rendered : node)
  : node :=
  Elem (u "div") (Some (u "pl-4")) (Some key)
    [ span "text-indigo-300" [Text [34%N]; Expr (JStr key); Text [34%N]];
      span "text-zinc-500" [Text (u ": ")];
      rendered;
      if Nat.ltb index (len - 1) then span "text-zinc-500" [Text (u ",")]
      else Expr (JBool false) ].

Fixpoint render_entries (len index : nat) (es : list (jsstring * node))
  : list node :=
  match es with
  | [] => []
  | (key, rendered) :: es' =>
      render_entry len index key rendered
        :: render_entries len (S index) es'
  end.

(** The object case, given the entries with their values rendered. *)
Definition render_object (es : list (jsstring * node)) : node :=
  Elem (u "span") None None
    [ span "text-zinc-500" [Expr (JStr (u "{"))];
      Expr (if Nat.ltb 0 (List.length es) then JStr JSON.newline
            else JBool false);
      Nodes (render_entries (List.length es) 0 es);
      span "text-zinc-500" [Expr (JStr (u "}"))] ].

Fixpoint renderJson (obj : value) (isRoot : bool) {struct obj} : node :=
  match obj with
  | JObj o =>
      render_object (map (fun kv => (fst kv, renderJson (snd kv) false)) o)
  | JArr xs =>
      render_object
        (combine (index_keys (List.length xs))
                 (map (fun x => renderJson x false) xs))
  | JNull | JBool _ | JNum _ _ | JStr _ => render_leaf obj
  end.

(* ================================================================== *)
(** * Vocabulary of the specification *)
(* ================================================================== *)

(** The ten keys the schema requires, read off [promptSchema]. *)
Definition required_keys : list jsstring :=
  match promptSchema with Schema _ _ r _ => r end.

Definition mem (k : jsstring) (ks : list jsstring) : bool :=
  existsb (JsString.eqb k) ks.

(** An object with string members [en] and [zh]. *)
Definition is_bilingual (v : value) : bool :=
  match v with
  | JObj o =>
      match lookup (u "en") o, lookup (u "zh") o with
      | Some (JStr _), Some (JStr _) => true
      | _, _ => false
      end
  | _ => false
  end.

(** Exactly the ten required keys, each holding a bilingual object. *)
Definition has_prompt_shape (v : value) : bool :=
  match v with
  | JObj o =>
      Nat.eqb (List.length o) (List.length required_keys)
      && forallb (fun k => mem k (keys o)) required_keys
      && forallb (fun k => mem k required_keys) (keys o)
      && forallb (fun kv => is_bilingual (snd kv)) o
  | _ => false
  end.

(** A result that carries an error message, as the failure path of the
    analysis stores it and as the output pane displays it. *)
Definition is_error_result (v : value) : bool :=
  match Get v (u "error") with
  | Some (JStr (_ :: _)) => true
  | _ => false
  end.

(** An entry of the result with its value projected to one language. *)
Definition project_entry (k : jsstring) (kv : jsstring * value)
  : jsstring * value :=
  (fst kv, filtered_value k (snd kv)).

(** Own properties in ECMAScript order: no key twice, array indices
    ascending before all other keys.  [key_before k1 k2] says that [k1] may
    come before [k2]. *)
Definition key_before (k1 k2 : jsstring) : bool :=
  match array_index k1, array_index k2 with
  | Some i, Some j => N.ltb i j
  | Some _, None => true
  | None, Some _ => false
  | None, None => negb (JsString.eqb k1 k2)
  end.

(** Each key comes before all later ones. *)
Fixpoint own_property_order (ks : list jsstring) : bool :=
  match ks with
  | [] => true
  | k :: r => forallb (key_before k) r && own_property_order r
  end.

(** A digit string that does not start with ["0"]. *)
Definition no_leading_zero (k : jsstring) : Prop :=
  match k with [] => True | c :: _ => c <> 48%N end.

(** Well-formed values: every object, at any depth, lists its own
    properties in property order. *)
Fixpoint wf_value (v : value) : bool :=
  match v with
  | JObj o =>
      own_property_order (map fst o)
      && forallb (fun kv => wf_value (snd kv)) o
  | JArr xs => forallb wf_value xs
  | JNull | JBool _ | JNum _ _ | JStr _ => true
  end.

(** The values the component stores in the result cell: the initial
    [null] (also stored by [analyzeImage] and [reset]), the error object
    of the failure path, and whatever [JSON.parse] returned. *)
Inductive stored : value -> Prop :=
| stored_initial : stored JNull
| stored_error : stored analysis_error
| stored_parsed (text : jsstring) (v : value) :
    JSON.parse text = Some v -> stored v.

(** Well-formedness of the intermediate states of [JSON.parse]. *)
Definition frame_ok (f : JSON.frame) : bool :=
  match f with
  | JSON.FArr items => forallb wf_value items
  | JSON.FObj o | JSON.FKey o _ => wf_value (JObj o)
  end.

Definition token_ok (t : JSON.token) : bool :=
  match t with JSON.TScalar v => wf_value v | _ => true end.

Definition config_ok (c : JSON.config) : bool :=
  forallb frame_ok (snd c)
  && match fst c with JSON.EDone v => wf_value v | _ => true end.

Definition lexst_ok (st : JSON.lexst) : bool :=
  match st with JSON.LLit _ v => wf_value v | _ => true end.

(** ** Sample inputs *)

(** A text file, and the data URL a reader produces for it. *)
Definition notes_txt : File :=
  {| file_name := u "notes.txt"; file_type := u "text/plain" |}.
Definition notes_url : jsstring := u "data:text/plain;base64,aGk=".

(** A picture, as the reader delivers it. *)
Definition png_url : jsstring := u "data:image/png;base64,iVBORw0KGgo=".
Definition png_type : jsstring := u "image/png".

Definition bilingual (en zh : jsstring) : value :=
  JObj [(u "en", JStr en); (u "zh", JStr zh)].

(** A result of the prompt shape; the Chinese strings are given by their
    code units. *)
Definition cat_result : value :=
  JObj [(u "subject", bilingual (u "A cat") [19968; 21482; 29483]%N);
        (u "style", bilingual (u "Photo") [29031; 29255]%N);
        (u "lighting", bilingual (u "Soft") [26580; 20809]%N);
        (u "composition", bilingual (u "Centered") [23621; 20013]%N);
        (u "shootingAngle", bilingual (u "Eye level") [24179; 35270]%N);
        (u "lensSettings", bilingual (u "f/1.8") (u "f/1.8"));
        (u "focalLength", bilingual (u "50mm") (u "50mm"));
        (u "imageDimensions", bilingual (u "4:3") (u "4:3"));
        (u "colors", bilingual (u "Warm") [26262; 33394]%N);
        (u "fullPrompt", bilingual (u "A cat, photo") [29483]%N)].

(** The response text that denotes it. *)
Definition cat_text : jsstring := JSON.stringify cat_result.

(** A small result, and the state reached when a dropped picture has been
    analysed to it and an instruction has been typed. *)
Definition draft_result : value :=
  JObj [(u "subject", bilingual (u "A dog") [29399]%N);
        (u "ratio", JStr (u "4:3"))].

Definition png_file : File :=
  {| file_name := u "dog.png"; file_type := png_type |}.

Definition ready : App :=
  run [Drop [png_file];
       ReaderLoad png_file png_url;
       AnalysisSettled (Fulfilled (Some (JSON.stringify draft_result)));
       InstructionTyped (u "make it a cat")]
      initial.

(** A result with fields of every kind: a bilingual object, a string,
    [null], an object without the [zh] member, an array; and the state in
    which it is displayed. *)
Definition mixed_result : value :=
  JObj [(u "subject", bilingual (u "A dog") [29399]%N);
        (u "ratio", JStr (u "4:3"));
        (u "note", JNull);
        (u "caption", JObj [(u "en", JStr (u "hi"))]);
        (u "tags", JArr [JStr (u "pet")])].

Definition mixed : App :=
  run [Drop [png_file];
       ReaderLoad png_file png_url;
       AnalysisSettled (Fulfilled (Some (JSON.stringify mixed_result)))]
      initial.

(** A response object with a member named [__proto__]. *)
Definition proto_result : value :=
  JObj [(u "subject", bilingual (u "A cat") [29483]%N);
        (u "__proto__", bilingual (u "x") (u "y"))].

(* ================================================================== *)
(** * Lemmas on strings and objects *)
(* ================================================================== *)

Lemma jsstring_eqb_eq (a b : jsstring) : JsString.eqb a b = true <-> a = b.
Proof.
  revert b; induction a as [|x a IH]; intros [|y b]; simpl;
    try (split; congruence).
  rewrite andb_true_iff, N.eqb_eq, IH. split.
  - intros [-> ->]; reflexivity.
  - intros H; injection H; auto.
Qed.

Lemma jsstring_eqb_refl (a : jsstring) : JsString.eqb a a = true.
Proof. apply jsstring_eqb_eq; reflexivity. Qed.

Lemma trimStart_whitespace (s : jsstring) :
  whitespace_only s = true -> trimStart s = [].
Proof.
  induction s as [|c s IH]; simpl; [reflexivity|].
  rewrite andb_true_iff; intros [Hc Hs]. rewrite Hc; auto.
Qed.

Lemma trimStart_nil_whitespace (s : jsstring) :
  trimStart s = [] -> whitespace_only s = true.
Proof.
  induction s as [|c s IH]; simpl; [reflexivity|].
  destruct (isWhiteSpace c); [auto | discriminate].
Qed.

(** What [trimStart] leaves is a suffix that does not start with white
    space, and what it removes is white space. *)
Lemma trimStart_split (s : jsstring) :
  exists p, s = p ++ trimStart s /\ whitespace_only p = true.
Proof.
  induction s as [|c s [p [Hs Hp]]]; simpl.
  - exists []; auto.
  - destruct (isWhiteSpace c) eqn:Hc.
    + exists (c :: p); simpl; rewrite Hc, Hp; split; [f_equal; exact Hs | reflexivity].
    + exists []; auto.
Qed.

Lemma whitespace_only_app (a b : jsstring) :
  whitespace_only (a ++ b) = whitespace_only a && whitespace_only b.
Proof. apply forallb_app. Qed.

Lemma whitespace_only_rev (s : jsstring) :
  whitespace_only (List.rev s) = whitespace_only s.
Proof.
  induction s as [|c s IH]; simpl; [reflexivity|].
  rewrite whitespace_only_app, IH; simpl. rewrite andb_true_r, andb_comm.
  reflexivity.
Qed.

(** [trim] leaves nothing exactly of the strings that are empty or white
    space only. *)
Lemma trim_nil_iff (s : jsstring) :
  trim s = [] <-> whitespace_only s = true.
Proof.
  unfold trim, trimEnd. split.
  - intros H.
    assert (H1 : trimStart (List.rev (trimStart s)) = []).
    { rewrite <- (rev_involutive (trimStart _)), H; reflexivity. }
    apply trimStart_nil_whitespace in H1. rewrite whitespace_only_rev in H1.
    destruct (trimStart_split s) as [p [Hs Hp]].
    rewrite Hs, whitespace_only_app, Hp, H1; reflexivity.
  - intros H. rewrite (trimStart_whitespace s H); reflexivity.
Qed.

Lemma jsonStr_blank (text : option jsstring) :
  match text with Some t => whitespace_only t = true | None => True end ->
  jsonStr text = u "{}".
Proof.
  destruct text as [t|]; [|reflexivity].
  intros H; unfold jsonStr. apply trim_nil_iff in H; rewrite H; reflexivity.
Qed.

(** The two ways the awaited part of a [try] block throws. *)
Lemma await_json_throw (o : settled) (e : exn) :
  await_json o = Throw e <->
  (exists reason, o = Rejected reason /\ e = ApiError reason) \/
  (exists text, o = Fulfilled text /\ JSON.parse (jsonStr text) = None
                /\ e = SyntaxError (jsonStr text)).
Proof.
  unfold await_json; split.
  - destruct o as [text|reason].
    + destruct (JSON.parse (jsonStr text)) eqn:Hp; [discriminate|].
      intros H; injection H as <-; right; exists text; auto.
    + intros H; injection H as <-; left; exists reason; auto.
  - intros [[reason [-> ->]] | [text [-> [Hp ->]]]]; [reflexivity|].
    rewrite Hp; reflexivity.
Qed.

Lemma await_json_normal (text : option jsstring) (v : value) :
  JSON.parse (jsonStr text) = Some v -> await_json (Fulfilled text) = Normal v.
Proof. intros H; unfold await_json; rewrite H; reflexivity. Qed.

Lemma is_error_result_truthy (v : value) :
  is_error_result v = true -> truthy (Get v (u "error")) = true.
Proof.
  unfold is_error_result.
  destruct (Get v (u "error")) as [[| | |[|c s]| |]|]; try discriminate.
  reflexivity.
Qed.

Lemma analysis_error_is_error_result : is_error_result analysis_error = true.
Proof. reflexivity. Qed.

(** ** Array-index keys *)

Lemma decimal_value_snoc (acc : N) (k : jsstring) (d : code_unit) :
  decimal_value acc (k ++ [d]) = (decimal_value acc k * 10 + (d - 48))%N.
Proof. unfold decimal_value; rewrite fold_left_app; reflexivity. Qed.

Lemma decimal_value_ge (k : jsstring) (acc : N) :
  (acc <= decimal_value acc k)%N.
Proof.
  revert acc; induction k as [|c k IH]; intros acc; simpl; [lia|].
  specialize (IH (acc * 10 + (c - 48))%N). unfold decimal_value in *. lia.
Qed.

Lemma decimal_value_pos (k : jsstring) :
  k <> [] -> forallb digit_char k = true -> no_leading_zero k ->
  (0 < decimal_value 0 k)%N.
Proof.
  destruct k as [|c k]; [congruence|]. simpl. intros _ Hd Hz.
  apply andb_true_iff in Hd as [Hc _]. unfold digit_char in Hc.
  apply andb_true_iff in Hc as [H1 H2].
  apply N.leb_le in H1, H2.
  pose proof (decimal_value_ge k (c - 48)%N) as Hge.
  unfold decimal_value in Hge |- *. simpl. lia.
Qed.

Lemma no_leading_zero_prefix (k : jsstring) (d : code_unit) :
  no_leading_zero (k ++ [d]) -> no_leading_zero k.
Proof. destruct k; simpl; auto. Qed.

(** A digit string without leading zero is determined by its value. *)
Lemma decimal_value_inj (k1 : jsstring) :
  forall k2,
  forallb digit_char k1 = true -> forallb digit_char k2 = true ->
  no_leading_zero k1 -> no_leading_zero k2 ->
  decimal_value 0 k1 = decimal_value 0 k2 -> k1 = k2.
Proof.
  induction k1 as [|d1 k1 IH] using rev_ind; intros k2 H1 H2 Z1 Z2 Hv.
  - destruct k2 as [|c k2]; [reflexivity|].
    pose proof (decimal_value_pos (c :: k2)) as Hp.
    rewrite <- Hv in Hp. simpl in Hp.
    assert (0 < 0)%N by (apply Hp; [discriminate | exact H2 | exact Z2]). lia.
  - destruct k2 as [|d2 k2 _] using rev_ind.
    + pose proof (decimal_value_pos (k1 ++ [d1])) as Hp.
      rewrite Hv in Hp. simpl in Hp.
      assert (0 < 0)%N.
      { apply Hp; [destruct k1; discriminate | exact H1 | exact Z1]. }
      lia.
    + rewrite !decimal_value_snoc in Hv.
      rewrite forallb_app in H1, H2. simpl in H1, H2.
      apply andb_true_iff in H1 as [H1 D1], H2 as [H2 D2].
      rewrite andb_true_r in D1, D2. unfold digit_char in D1, D2.
      apply andb_true_iff in D1 as [A1 B1], D2 as [A2 B2].
      apply N.leb_le in A1, B1, A2, B2.
      assert (d1 = d2) by lia. subst d2.
      assert (Hv' : decimal_value 0 k1 = decimal_value 0 k2) by lia.
      rewrite (IH k2 H1 H2 (no_leading_zero_prefix _ _ Z1)
                  (no_leading_zero_prefix _ _ Z2) Hv').
      reflexivity.
Qed.

Lemma canonical_numeric_spec (k : jsstring) :
  canonical_numeric k = true <->
  k <> [] /\ forallb digit_char k = true /\ (k = [48%N] \/ no_leading_zero k).
Proof.
  destruct k as [|c r]; [split; [discriminate | intros [H _]; congruence]|].
  unfold canonical_numeric. rewrite andb_true_iff, orb_true_iff, negb_true_iff.
  rewrite N.eqb_neq. split.
  - intros [Hd [Hc | Hr]].
    + split; [discriminate|]. split; [exact Hd|]. right; exact Hc.
    + destruct r; [|discriminate]. split; [discriminate|]. split; [exact Hd|].
      destruct (N.eq_dec c 48) as [-> | Hc]; [left; reflexivity | right; exact Hc].
  - intros [_ [Hd [Hk | Hz]]]; split; try exact Hd.
    + injection Hk as -> ->. right; reflexivity.
    + left; exact Hz.
Qed.

(** What [array_index] accepts, and what it returns. *)
Lemma array_index_spec (k : jsstring) (i : N) :
  array_index k = Some i <->
  canonical_numeric k = true /\ decimal_value 0 k = i /\ (i < 4294967295)%N.
Proof.
  unfold array_index. destruct (canonical_numeric k).
  - destruct (N.ltb_spec (decimal_value 0 k) 4294967295) as [Hlt | Hge].
    + split.
      * intros H; injection H as <-. auto.
      * intros [_ [<- _]]; reflexivity.
    + split; [discriminate|]. intros [_ [<- Hi]]. lia.
  - split; [discriminate|]. intros [H _]; discriminate.
Qed.

Lemma array_index_inj (k1 k2 : jsstring) (i : N) :
  array_index k1 = Some i -> array_index k2 = Some i -> k1 = k2.
Proof.
  intros H1 H2. apply array_index_spec in H1, H2.
  destruct H1 as [C1 [V1 _]], H2 as [C2 [V2 _]].
  apply canonical_numeric_spec in C1, C2.
  destruct C1 as [N1 [D1 C1]], C2 as [N2 [D2 C2]].
  destruct C1 as [-> | Z1], C2 as [-> | Z2]; try reflexivity.
  - pose proof (decimal_value_pos k2 N2 D2 Z2) as H.
    rewrite V2, <- V1 in H. discriminate H.
  - pose proof (decimal_value_pos k1 N1 D1 Z1) as H.
    rewrite V1, <- V2 in H. discriminate H.
  - apply decimal_value_inj; auto; congruence.
Qed.

(** ** Property order is kept by [CreateDataProperty] *)

Lemma lookup_none_keys (k : jsstring) (o : props) :
  lookup k o = None ->
  forall k', In k' (keys o) -> JsString.eqb k k' = false.
Proof.
  induction o as [|[k0 v0] o IH]; simpl; [contradiction|].
  destruct (JsString.eqb k k0) eqn:E; [discriminate|].
  intros H k' [<- | Hin]; auto.
Qed.

Lemma jsstring_eqb_sym (a b : jsstring) : JsString.eqb a b = JsString.eqb b a.
Proof.
  destruct (JsString.eqb a b) eqn:E1, (JsString.eqb b a) eqn:E2; try reflexivity.
  - apply jsstring_eqb_eq in E1; subst; rewrite jsstring_eqb_refl in E2; discriminate.
  - apply jsstring_eqb_eq in E2; subst; rewrite jsstring_eqb_refl in E1; discriminate.
Qed.

Lemma keys_replace (k : jsstring) (v : value) (o : props) :
  keys (replace k v o) = keys o.
Proof.
  induction o as [|[k0 v0] o IH]; simpl; [reflexivity|].
  destruct (JsString.eqb k k0); simpl; [reflexivity | now rewrite IH].
Qed.

Lemma keys_insert_index_forall (P : jsstring -> bool) (i : N) (k : jsstring)
  (v : value) (o : props) :
  P k = true -> forallb P (keys o) = true ->
  forallb P (keys (insert_index i k v o)) = true.
Proof.
  intros Hk. induction o as [|[k0 v0] o IH]; simpl.
  - rewrite Hk; reflexivity.
  - rewrite andb_true_iff. intros [H0 Ho].
    destruct (array_index k0) as [j|]; [destruct (N.ltb j i)|]; simpl;
      rewrite ?Hk, ?H0, ?Ho, ?IH; auto.
Qed.

Lemma own_property_order_snoc (l : list jsstring) (k : jsstring) :
  own_property_order l = true ->
  forallb (fun k' => key_before k' k) l = true ->
  own_property_order (l ++ [k]) = true.
Proof.
  induction l as [|x l IH]; simpl; [reflexivity|].
  rewrite !andb_true_iff, forallb_app. simpl.
  intros [Hx Hl] [Hxk Hlk]. rewrite Hx, Hxk, IH; auto.
Qed.

Lemma insert_index_order (i : N) (k : jsstring) (v : value) (o : props) :
  array_index k = Some i ->
  lookup k o = None ->
  own_property_order (keys o) = true ->
  own_property_order (keys (insert_index i k v o)) = true.
Proof.
  intros Hi. induction o as [|[k0 v0] o IH]; simpl; [reflexivity|].
  destruct (JsString.eqb k k0) eqn:Hne; [discriminate|].
  intros Hl. rewrite andb_true_iff. intros [H0 Ho].
  destruct (array_index k0) as [j|] eqn:Hj.
  - destruct (N.ltb_spec j i) as [Hlt | Hge]; simpl.
    + rewrite andb_true_iff; split; [|apply IH; auto].
      apply keys_insert_index_forall; [|exact H0].
      unfold key_before. rewrite Hj, Hi. apply N.ltb_lt; exact Hlt.
    + assert (Hij : i <> j).
      { intros ->. rewrite (array_index_inj k k0 j Hi Hj), jsstring_eqb_refl in Hne.
        discriminate. }
      rewrite !andb_true_iff. repeat split; auto.
      * unfold key_before. rewrite Hi, Hj. apply N.ltb_lt. lia.
      * apply forallb_forall. intros k' Hin.
        rewrite forallb_forall in H0. specialize (H0 k' Hin).
        unfold key_before in H0 |- *. rewrite Hi. rewrite Hj in H0.
        destruct (array_index k') as [j'|]; auto.
        apply N.ltb_lt in H0. apply N.ltb_lt. lia.
  - simpl. rewrite !andb_true_iff. repeat split; auto.
    + unfold key_before. rewrite Hi, Hj. reflexivity.
    + apply forallb_forall. intros k' Hin.
      rewrite forallb_forall in H0. specialize (H0 k' Hin).
      unfold key_before in H0 |- *. rewrite Hi. rewrite Hj in H0.
      destruct (array_index k'); [discriminate | reflexivity].
Qed.

Lemma obj_define_order (k : jsstring) (v : value) (o : props) :
  own_property_order (keys o) = true ->
  own_property_order (keys (obj_define k v o)) = true.
Proof.
  intros Ho. unfold obj_define. destruct (lookup k o) eqn:Hl.
  - rewrite keys_replace; exact Ho.
  - destruct (array_index k) as [i|] eqn:Hi.
    + apply insert_index_order; auto.
    + unfold keys. rewrite map_app. change (map fst [(k, v)]) with [k].
      apply own_property_order_snoc; [exact Ho|].
      apply forallb_forall. intros k' Hin.
      pose proof (lookup_none_keys k o Hl k' Hin) as Hne.
      cbv beta. unfold key_before. rewrite Hi. destruct (array_index k'); [reflexivity|].
      rewrite jsstring_eqb_sym, Hne; reflexivity.
Qed.

(** ... and it stores the given value next to the values already there. *)
Lemma obj_define_values (P : value -> bool) (k : jsstring) (v : value)
  (o : props) :
  P v = true -> forallb (fun kv => P (snd kv)) o = true ->
  forallb (fun kv => P (snd kv)) (obj_define k v o) = true.
Proof.
  intros Hv Ho. unfold obj_define. destruct (lookup k o).
  - clear -Hv Ho. induction o as [|[k0 v0] o IH]; simpl in *; [reflexivity|].
    apply andb_true_iff in Ho as [H0 Ho].
    destruct (JsString.eqb k k0); simpl; rewrite ?Hv, ?H0, ?Ho, ?IH; auto.
  - destruct (array_index k) as [i|].
    + clear -Hv Ho. induction o as [|[k0 v0] o IH]; simpl in *.
      * rewrite Hv; reflexivity.
      * apply andb_true_iff in Ho as [H0 Ho].
        destruct (array_index k0) as [j|]; [destruct (N.ltb j i)|]; simpl;
          rewrite ?Hv, ?H0, ?Ho, ?IH; auto.
    + rewrite forallb_app, Ho; simpl. rewrite Hv; reflexivity.
Qed.

(** ** The index keys of arrays and strings *)

Lemma of_uint_digits (d : Decimal.uint) :
  forallb digit_char (of_uint d) = true.
Proof. induction d; simpl; auto. Qed.

Lemma decimal_value_cons (acc : N) (c : code_unit) (k : jsstring) :
  decimal_value acc (c :: k) = decimal_value (acc * 10 + (c - 48))%N k.
Proof. reflexivity. Qed.

Lemma of_uint_value (d : Decimal.uint) :
  forall acc : nat,
  decimal_value (N.of_nat acc) (of_uint d) = N.of_nat (Nat.of_uint_acc d acc).
Proof.
  induction d; intros acc; cbn [of_uint Nat.of_uint_acc];
    [reflexivity | rewrite decimal_value_cons, <- IHd; f_equal;
                   rewrite Nat.tail_mul_spec; lia ..].
Qed.

Lemma of_uint_inj (d1 : Decimal.uint) :
  forall d2, of_uint d1 = of_uint d2 -> d1 = d2.
Proof.
  induction d1; intros []; simpl; intros H; try discriminate;
    try reflexivity; injection H as H; f_equal; auto.
Qed.

Lemma of_uint_unorm (d : Decimal.uint) :
  of_uint (Decimal.unorm d) <> [] /\
  (of_uint (Decimal.unorm d) = [48%N] \/
   no_leading_zero (of_uint (Decimal.unorm d))).
Proof.
  unfold Decimal.unorm.
  destruct (Decimal.nzhead d) eqn:E; simpl;
    try (split; [discriminate | right; discriminate]).
  - split; [discriminate | left; reflexivity].
  - exfalso. exact (DecimalFacts.nzhead_nonzero _ _ E).
Qed.

Lemma to_uint_unorm (n : nat) :
  Decimal.unorm (Nat.to_uint n) = Nat.to_uint n.
Proof.
  rewrite <- DecimalNat.Unsigned.to_of, DecimalNat.Unsigned.of_to.
  reflexivity.
Qed.

Lemma array_index_of_nat (n : nat) :
  array_index (of_nat n) =
  if N.ltb (N.of_nat n) 4294967295 then Some (N.of_nat n) else None.
Proof.
  unfold array_index, of_nat.
  assert (Hc : canonical_numeric (of_uint (Nat.to_uint n)) = true).
  { apply canonical_numeric_spec. rewrite <- to_uint_unorm.
    destruct (of_uint_unorm (Nat.to_uint n)) as [Hn Hz].
    split; [exact Hn|]. split; [apply of_uint_digits | exact Hz]. }
  rewrite Hc.
  change 0%N with (N.of_nat 0). rewrite of_uint_value.
  change (Nat.of_uint_acc (Nat.to_uint n) 0) with (Nat.of_uint (Nat.to_uint n)).
  rewrite DecimalNat.Unsigned.of_to. reflexivity.
Qed.

Lemma of_nat_inj (i j : nat) : of_nat i = of_nat j -> i = j.
Proof.
  intros H. apply DecimalNat.Unsigned.to_uint_inj, of_uint_inj, H.
Qed.

Lemma key_before_of_nat (i j : nat) :
  i < j -> key_before (of_nat i) (of_nat j) = true.
Proof.
  intros Hlt. unfold key_before. rewrite !array_index_of_nat.
  destruct (N.ltb_spec (N.of_nat i) 4294967295);
    destruct (N.ltb_spec (N.of_nat j) 4294967295); try reflexivity.
  - apply N.ltb_lt; lia.
  - lia.
  - apply negb_true_iff.
    destruct (JsString.eqb (of_nat i) (of_nat j)) eqn:E; [|reflexivity].
    apply jsstring_eqb_eq, of_nat_inj in E. lia.
Qed.

Lemma index_keys_order (n : nat) : own_property_order (index_keys n) = true.
Proof.
  unfold index_keys. generalize 0 as start.
  induction n as [|n IH]; intros start; simpl; [reflexivity|].
  rewrite IH, andb_true_r. apply forallb_forall.
  intros k Hin. apply in_map_iff in Hin as [j [<- Hj]].
  apply in_seq in Hj. apply key_before_of_nat; lia.
Qed.

Lemma keys_combine (ks : list jsstring) (vs : list value) :
  List.length ks = List.length vs -> keys (combine ks vs) = ks.
Proof.
  revert vs; induction ks as [|k ks IH]; intros [|v vs]; simpl;
    try discriminate; [reflexivity|].
  intros H; injection H as H. rewrite IH; auto.
Qed.

Lemma index_keys_length (n : nat) : List.length (index_keys n) = n.
Proof. unfold index_keys. rewrite length_map, length_seq; reflexivity. Qed.

(** ** What [JSON.parse] builds is well formed *)

Lemma complete_ok (v : value) (st : list JSON.frame) (c : JSON.config) :
  wf_value v = true -> forallb frame_ok st = true ->
  JSON.complete v st = Some c -> config_ok c = true.
Proof.
  intros Hv Hst. destruct st as [|[items|o|o k] st]; simpl; intros H;
    try discriminate; injection H as <-; unfold config_ok; simpl in *.
  - rewrite Hv; reflexivity.
  - apply andb_true_iff in Hst as [Hi Hst]. rewrite Hv, Hi, Hst; reflexivity.
  - apply andb_true_iff in Hst as [Ho Hst].
    apply andb_true_iff in Ho as [Hk Hvs].
    fold (keys o) in Hk. fold (keys (obj_define k v o)).
    rewrite (obj_define_order k v o Hk), (obj_define_values wf_value k v o Hv Hvs), Hst.
    reflexivity.
Qed.

Lemma open_value_ok (t : JSON.token) (st : list JSON.frame) (c : JSON.config) :
  token_ok t = true -> forallb frame_ok st = true ->
  JSON.open_value t st = Some c -> config_ok c = true.
Proof.
  intros Ht Hst. destruct t; simpl; intros H; try discriminate;
    try (injection H as <-; unfold config_ok; simpl; rewrite Hst; reflexivity).
  - exact (complete_ok (JStr s) st c eq_refl Hst H).
  - exact (complete_ok v st c Ht Hst H).
Qed.

Lemma forallb_rev {A : Type} (P : A -> bool) (l : list A) :
  forallb P l = true -> forallb P (List.rev l) = true.
Proof.
  rewrite !forallb_forall. intros H x Hin. apply H, in_rev, Hin.
Qed.

Lemma parse_step_ok (c : JSON.config) (t : JSON.token) (c' : JSON.config) :
  config_ok c = true -> token_ok t = true ->
  JSON.parse_step c t = Some c' -> config_ok c' = true.
Proof.
  destruct c as [e st]. unfold config_ok at 1. simpl fst; simpl snd.
  rewrite andb_true_iff. intros [Hst _] Ht.
  destruct e; simpl;
    try (destruct t; try discriminate;
         destruct st as [|[items|o|o k] st']; try discriminate);
    try (apply open_value_ok; assumption);
    simpl in Hst; try apply andb_true_iff in Hst as [Hf Hst'];
    intros H;
    try (injection H as <-; unfold config_ok; simpl;
         rewrite ?Hf, ?Hst'; reflexivity);
    try (eapply complete_ok; [| exact Hst' | exact H]; simpl;
         auto using forallb_rev);
    try (eapply open_value_ok; [| | exact H]; simpl; auto;
         rewrite ?Hf, ?Hst'; reflexivity).
Qed.

Lemma parse_tokens_ok (ts : list JSON.token) :
  forall c v, config_ok c = true -> forallb token_ok ts = true ->
  JSON.parse_tokens c ts = Some v -> wf_value v = true.
Proof.
  induction ts as [|t ts IH]; intros c v Hc Hts; simpl.
  - destruct c as [[] st]; try discriminate.
    intros H; injection H as <-. unfold config_ok in Hc; simpl in Hc.
    apply andb_true_iff in Hc as [_ Hv]; exact Hv.
  - simpl in Hts. apply andb_true_iff in Hts as [Ht Hts].
    destruct (JSON.parse_step c t) as [c'|] eqn:Hs; [|discriminate].
    apply IH; [exact (parse_step_ok c t c' Hc Ht Hs) | exact Hts].
Qed.

Ltac split_ifs :=
  repeat match goal with
         | |- context [if ?b then _ else _] => destruct b
         end.

Lemma idle_step_ok (c : code_unit) (toks : list JSON.token)
  (st : JSON.lexst) :
  JSON.idle_step c = Some (toks, st) ->
  forallb token_ok toks = true /\ lexst_ok st = true.
Proof.
  unfold JSON.idle_step. split_ifs; intros H; try discriminate;
    injection H as <- <-; split; reflexivity.
Qed.

Lemma lex_step_ok (st : JSON.lexst) (c : code_unit)
  (toks : list JSON.token) (st' : JSON.lexst) :
  lexst_ok st = true ->
  JSON.lex_step st c = Some (toks, st') ->
  forallb token_ok toks = true /\ lexst_ok st' = true.
Proof.
  intros Hst. destruct st; simpl.
  - apply idle_step_ok.
  - destruct rest as [|x [|y rest]]; split_ifs; intros H; try discriminate;
      injection H as <- <-; simpl in *; rewrite ?Hst; split; reflexivity.
  - split_ifs; intros H; try discriminate; injection H as <- <-;
      split; reflexivity.
  - split_ifs; intros H; try discriminate; injection H as <- <-;
      split; reflexivity.
  - destruct (JSON.hex_value c); split_ifs; intros H; try discriminate;
      injection H as <- <-; split; reflexivity.
  - destruct (JSON.idle_step c) as [[ts s']|] eqn:Hi.
    + destruct (idle_step_ok c ts s' Hi) as [Hts Hs'].
      destruct ph; split_ifs; intros H; try discriminate;
        injection H as <- <-; simpl; auto.
    + destruct ph; split_ifs; intros H; try discriminate;
        injection H as <- <-; split; reflexivity.
Qed.

Lemma lex_ok (s : jsstring) :
  forall st ts, lexst_ok st = true ->
  JSON.lex st s = Some ts -> forallb token_ok ts = true.
Proof.
  induction s as [|c s IH]; intros st ts Hst; simpl.
  - destruct st; simpl; try discriminate.
    + intros H; injection H as <-; reflexivity.
    + destruct ph; intros H; try discriminate; injection H as <-; reflexivity.
  - destruct (JSON.lex_step st c) as [[toks st']|] eqn:Hs; [|discriminate].
    destruct (lex_step_ok st c toks st' Hst Hs) as [Htoks Hst'].
    destruct (JSON.lex st' s) as [rest|] eqn:Hr; [|discriminate].
    intros H; injection H as <-.
    rewrite forallb_app, Htoks, (IH st' rest Hst' Hr); reflexivity.
Qed.

(** Every value [JSON.parse] returns has its objects in property order. *)
Lemma parse_wf (text : jsstring) (v : value) :
  JSON.parse text = Some v -> wf_value v = true.
Proof.
  unfold JSON.parse. destruct (JSON.lex JSON.LIdle text) as [ts|] eqn:Hl;
    [|discriminate].
  apply parse_tokens_ok; [reflexivity | exact (lex_ok text JSON.LIdle ts eq_refl Hl)].
Qed.

Lemma stored_wf (v : value) : stored v -> wf_value v = true.
Proof.
  intros [| | text v' H]; [reflexivity | reflexivity | exact (parse_wf text v' H)].
Qed.

(** The entries of a well-formed value are in property order. *)
Lemma wf_entries_order (v : value) :
  wf_value v = true -> own_property_order (keys (Object_entries v)) = true.
Proof.
  destruct v; simpl; intros H; try reflexivity.
  - rewrite keys_combine; [apply index_keys_order|].
    rewrite index_keys_length, length_map; reflexivity.
  - rewrite keys_combine; [apply index_keys_order|].
    rewrite index_keys_length; reflexivity.
  - apply andb_true_iff in H as [H _]; exact H.
Qed.

(** Whatever happens, the result cell holds a stored value. *)
Lemma step_stored (e : event) (a : App) :
  stored (result (ui a)) -> stored (result (ui (step e a))).
Proof.
  intros H. destruct e; simpl; try exact H.
  - unfold handleDrop. destruct (nth_error files 0) as [file|]; [|exact H].
    destruct (startsWith (u "image/") (file_type file)); exact H.
  - unfold handleFileChange. destruct files as [fs|]; [|exact H].
    destruct (nth_error fs 0); exact H.
  - constructor.
  - unfold analyzeImage_settle, await_json. destruct o as [text|reason].
    + destruct (JSON.parse (jsonStr text)) eqn:Hp.
      * exact (stored_parsed (jsonStr text) v Hp).
      * exact stored_error.
    + exact stored_error.
  - unfold handleModify_begin.
    destruct (handleModify_returns (ui a)); exact H.
  - unfold handleModify_settle, await_json. destruct o as [text|reason].
    + destruct (JSON.parse (jsonStr text)) eqn:Hp.
      * exact (stored_parsed (jsonStr text) v Hp).
      * exact H.
    + exact H.
  - unfold copyToClipboard.
    destruct (negb (ToBoolean (result (ui a)))); exact H.
  - constructor.
Qed.

Lemma run_stored (es : list event) :
  forall a, stored (result (ui a)) -> stored (result (ui (run es a))).
Proof.
  induction es as [|e es IH]; intros a H; simpl; [exact H|].
  apply IH, step_stored, H.
Qed.

Lemma reachable_stored (es : list event) :
  stored (result (ui (run es initial))).
Proof. apply run_stored; constructor. Qed.

(* ================================================================== *)
(** * The modification call *)
(* ================================================================== *)

Lemma handleModify_returns_blank (s : State) :
  whitespace_only (modifyInstruction s) = true -> handleModify_returns s = true.
Proof.
  intros H; unfold handleModify_returns.
  apply trim_nil_iff in H; rewrite H; reflexivity.
Qed.

Lemma handleModify_returns_null (s : State) :
  result s = JNull -> handleModify_returns s = true.
Proof.
  intros H; unfold handleModify_returns; rewrite H.
  destruct (negb (ToBoolean (JStr (trim (modifyInstruction s)))));
    reflexivity.
Qed.

Lemma handleModify_returns_error (s : State) :
  is_error_result (result s) = true -> handleModify_returns s = true.
Proof.
  intros H; unfold handleModify_returns.
  rewrite (is_error_result_truthy _ H). apply orb_true_r.
Qed.

(** When the awaited part throws, the continuation writes the console and
    clears the flag, whatever happened while the call was in flight. *)
Lemma handleModify_settle_throw (o : settled) (e : exn) (a : App) :
  await_json o = Throw e ->
  handleModify_settle o a =
  a |> console_error "Error modifying prompt:" e |> setIsModifying false.
Proof. intros H; unfold handleModify_settle; rewrite H; reflexivity. Qed.

Lemma handleModify_settle_normal (o : settled) (v : value) (a : App) :
  await_json o = Normal v ->
  handleModify_settle o a =
  a |> setResult v |> setModifyInstruction [] |> setIsModifying false.
Proof. intros H; unfold handleModify_settle; rewrite H; reflexivity. Qed.

(** C3. If the modification call throws (the model call is rejected or its
    text does not parse), the stored result after the call is the one that
    was displayed before it: of the state only the modifying flag is
    written, cleared at the end, and the error goes to the console.  The
    continuation after the [await] never writes the result, whatever state
    it resumes in. *)
Theorem handleModify_throw_keeps_result (a : App) (o : settled) (e : exn) :
  await_json o = Throw e ->
  result (ui (handleModify o a)) = result (ui a) /\
  (handleModify_returns (ui a) = false ->
   ui (handleModify o a) = ui (a |> setIsModifying false) /\
   trace (handleModify o a) =
     trace a ++ [GenerateContent (modify_request (ui a));
                 ConsoleError (u "Error modifying prompt:") e]) /\
  (forall a', result (ui (handleModify_settle o a')) = result (ui a')).
Proof.
  intros H. split; [|split].
  - unfold handleModify, handleModify_begin.
    destruct (handleModify_returns (ui a)); [reflexivity|].
    rewrite (handleModify_settle_throw o e _ H). reflexivity.
  - intros Hg. unfold handleModify, handleModify_begin. rewrite Hg.
    rewrite (handleModify_settle_throw o e _ H). split; [reflexivity|].
    unfold console_error, emit; simpl. rewrite <- app_assoc; reflexivity.
  - intros a'. rewrite (handleModify_settle_throw o e a' H). reflexivity.
Qed.

(** C4. [handleModify] performs no model call and changes nothing when the
    instruction is empty or white space only, or the result is absent, or
    the result is an error result. *)
Theorem handleModify_noop (a : App) (o : settled) :
  whitespace_only (modifyInstruction (ui a)) = true \/
  result (ui a) = JNull \/
  is_error_result (result (ui a)) = true ->
  handleModify_begin a = a /\ handleModify o a = a.
Proof.
  intros H.
  assert (Hg : handleModify_returns (ui a) = true).
  { destruct H as [H | [H | H]];
      auto using handleModify_returns_blank, handleModify_returns_null,
                 handleModify_returns_error. }
  unfold handleModify, handleModify_begin; rewrite Hg; auto.
Qed.

(** C8. When the modification call succeeds (the response text parses),
    the stored result becomes the parsed value and the instruction field
    becomes the empty string; the continuation after the [await] does so
    in whatever state it resumes. *)
Theorem handleModify_success (a : App) (text : option jsstring) (v : value) :
  handleModify_returns (ui a) = false ->
  JSON.parse (jsonStr text) = Some v ->
  let a' := handleModify (Fulfilled text) a in
  result (ui a') = v /\
  modifyInstruction (ui a') = [] /\
  isModifying (ui a') = false /\
  trace a' = trace a ++ [GenerateContent (modify_request (ui a))] /\
  (forall b, result (ui (handleModify_settle (Fulfilled text) b)) = v /\
             modifyInstruction (ui (handleModify_settle (Fulfilled text) b))
             = []).
Proof.
  intros Hg Hp. unfold handleModify, handleModify_begin; rewrite Hg.
  pose proof (await_json_normal text v Hp) as Hn.
  rewrite (handleModify_settle_normal _ v _ Hn).
  repeat split; try reflexivity;
    rewrite (handleModify_settle_normal _ v b Hn); reflexivity.
Qed.

(* ================================================================== *)
(** * The analysis call *)
(* ================================================================== *)

Lemma analyzeImage_settle_throw (o : settled) (e : exn) (a : App) :
  await_json o = Throw e ->
  analyzeImage_settle o a =
  a |> console_error "Error analyzing image:" e
    |> setResult analysis_error
    |> setIsLoading false.
Proof. intros H; unfold analyzeImage_settle; rewrite H; reflexivity. Qed.

Lemma analyzeImage_settle_normal (o : settled) (v : value) (a : App) :
  await_json o = Normal v ->
  analyzeImage_settle o a = a |> setResult v |> setIsLoading false.
Proof. intros H; unfold analyzeImage_settle; rewrite H; reflexivity. Qed.

Lemma analyzeImage_settle_clears_flag (o : settled) (a : App) :
  isLoading (ui (analyzeImage_settle o a)) = false.
Proof. unfold analyzeImage_settle; destruct (await_json o); reflexivity. Qed.

(** C7. The loading flag is set when the analysis call starts and is
    cleared when it finishes, on the success and on the error path; and
    when any step throws, the stored result is the fixed error object and
    the error is written to the console. *)
Theorem analyzeImage_error_path (base64Data mimeType : jsstring)
  (o : settled) (a : App) :
  isLoading (ui (analyzeImage_begin base64Data mimeType a)) = true /\
  isLoading (ui (analyzeImage base64Data mimeType o a)) = false /\
  (forall e, await_json o = Throw e ->
     result (ui (analyzeImage base64Data mimeType o a)) =
       JObj [(u "error",
              JStr (u "Failed to analyze image. Please try again."))] /\
     trace (analyzeImage base64Data mimeType o a) =
       trace a ++ [GenerateContent (analysis_request base64Data mimeType);
                   ConsoleError (u "Error analyzing image:") e]).
Proof.
  split; [reflexivity|]. split.
  - apply analyzeImage_settle_clears_flag.
  - intros e H. unfold analyzeImage.
    rewrite (analyzeImage_settle_throw o e _ H). split; [reflexivity|].
    unfold console_error, analyzeImage_begin, emit; simpl.
    rewrite <- app_assoc; reflexivity.
Qed.

(** The continuation of a successful analysis stores the parsed value and
    writes nothing else but the flag. *)
Lemma analyzeImage_success (base64Data mimeType : jsstring)
  (text : option jsstring) (v : value) (a : App) :
  JSON.parse (jsonStr text) = Some v ->
  analyzeImage base64Data mimeType (Fulfilled text) a =
  a |> analyzeImage_begin base64Data mimeType
    |> setResult v |> setIsLoading false.
Proof.
  intros Hp. unfold analyzeImage.
  apply analyzeImage_settle_normal, await_json_normal, Hp.
Qed.

(** C1, as the code has it.  An analysis call that completes without an
    exception stores the value [JSON.parse] yields for the trimmed response
    text, or for ["{}"] when the text is missing, empty or white space
    only.  So the result has the ten required keys with bilingual members
    exactly when the response text denotes such an object, and for a
    missing, empty or white-space-only response it is the empty object,
    which has none of them. *)
Theorem analyzeImage_stores_parsed_response (base64Data mimeType : jsstring)
  (text : option jsstring) (v : value) (a : App) :
  JSON.parse (jsonStr text) = Some v ->
  let a' := analyzeImage base64Data mimeType (Fulfilled text) a in
  result (ui a') = v /\
  has_prompt_shape (result (ui a')) = has_prompt_shape v /\
  (match text with Some t => whitespace_only t = true | None => True end ->
   result (ui a') = JObj [] /\ has_prompt_shape (result (ui a')) = false).
Proof.
  intros Hp a'. subst a'. rewrite (analyzeImage_success base64Data mimeType text v a Hp).
  split; [reflexivity|]. split; [reflexivity|].
  intros Hblank. rewrite (jsonStr_blank text Hblank) in Hp.
  vm_compute in Hp. injection Hp as <-. split; reflexivity.
Qed.

(* ================================================================== *)
(** * Image ingestion *)
(* ================================================================== *)

(** The drop handler ignores a file that is not an image: it only ends
    the drag highlight. *)
Lemma handleDrop_non_image (file : File) (files : list File) (a : App) :
  startsWith (u "image/") (file_type file) = false ->
  handleDrop (file :: files) a = a |> preventDefault |> setIsDragging false.
Proof.
  intros H; unfold handleDrop. cbn [nth_error]. rewrite H; reflexivity.
Qed.

(** The picker handler hands every file to the reader, whatever its type. *)
Lemma handleFileChange_any_type (file : File) (files : list File) (a : App) :
  handleFileChange (Some (file :: files)) a = processFile file a.
Proof. reflexivity. Qed.

(** C2, at a text file chosen in the file picker.  The file is read, and
    when the reader delivers the data URL the preview image is set and the
    analysis call is made, although the MIME type does not start with
    [image/]; the same file dropped is ignored. *)
Theorem handleFileChange_non_image_is_analysed :
  startsWith (u "image/") (file_type notes_txt) = false /\
  ui (handleDrop [notes_txt] initial) = ui initial /\
  trace (handleDrop [notes_txt] initial) = [PreventDefault] /\
  let a1 := handleFileChange (Some [notes_txt]) initial in
  trace a1 = [ReadAsDataURL notes_txt] /\
  let a2 := processFile_onload notes_txt notes_url a1 in
  image (ui a2) = Some notes_url /\
  isLoading (ui a2) = true /\
  trace a2 = [ReadAsDataURL notes_txt;
              GenerateContent (analysis_request notes_url (u "text/plain"))].
Proof. repeat split. Qed.

(* ================================================================== *)
(** * Clipboard export *)
(* ================================================================== *)

(** C10. With a [null] result, [copyToClipboard] does nothing in any of
    its modes: no clipboard write, no change of the copied mark. *)
Theorem copyToClipboard_null_noop (m : mode) (a : App) :
  result (ui a) = JNull -> copyToClipboard m a = a.
Proof. intros H; unfold copyToClipboard; rewrite H; reflexivity. Qed.

Lemma copyToClipboard_truthy (m : mode) (a : App) :
  ToBoolean (result (ui a)) = true ->
  copyToClipboard m a =
  a |> emit (ClipboardWrite (textToCopy m (result (ui a))))
    |> setCopied (Some m)
    |> emit (SetTimeout_clearCopied 2000).
Proof. intros H; unfold copyToClipboard; rewrite H; reflexivity. Qed.

(** C5, as the code has it.  For every truthy stored result (an object, an
    array, a non-empty string, a non-zero number, [true]) the text that
    [copyToClipboard('all')] writes is [JSON.stringify(result, null, 2)]. *)
Theorem copyToClipboard_all_writes_stringify (a : App) :
  ToBoolean (result (ui a)) = true ->
  let a' := copyToClipboard All a in
  trace a' = trace a ++ [ClipboardWrite (JSON.stringify (result (ui a)));
                         SetTimeout_clearCopied 2000] /\
  copied (ui a') = Some All /\
  result (ui a') = result (ui a).
Proof.
  intros H a'; subst a'. rewrite (copyToClipboard_truthy All a H).
  repeat split. unfold emit; simpl. rewrite <- app_assoc; reflexivity.
Qed.

(** ** The single-language projection *)

Lemma keys_map_project (k : jsstring) (o : props) :
  keys (map (project_entry k) o) = keys o.
Proof. unfold keys; rewrite map_map; reflexivity. Qed.

Lemma key_before_neq (k1 k2 : jsstring) :
  key_before k1 k2 = true -> JsString.eqb k2 k1 = false.
Proof.
  intros H. destruct (JsString.eqb k2 k1) eqn:E; [|reflexivity].
  apply jsstring_eqb_eq in E; subst k2. unfold key_before in H.
  destruct (array_index k1).
  - rewrite N.ltb_irrefl in H; discriminate.
  - rewrite jsstring_eqb_refl in H; discriminate.
Qed.

(** In a key list in property order, everything before a key precedes it. *)
Lemma own_property_order_prefix (l1 l2 : list jsstring) (k : jsstring) :
  own_property_order (l1 ++ k :: l2) = true ->
  Forall (fun k' => key_before k' k = true) l1.
Proof.
  induction l1 as [|x l1 IH]; simpl; [constructor|].
  rewrite andb_true_iff, forallb_app; simpl.
  rewrite !andb_true_iff. intros [[_ [Hx _]] Hr]. constructor; auto.
Qed.

Lemma lookup_absent (k : jsstring) (o : props) :
  Forall (fun k' => JsString.eqb k k' = false) (keys o) -> lookup k o = None.
Proof.
  induction o as [|[k' v] o IH]; simpl; [reflexivity|].
  intros H; inversion H as [|? ? Hk Ho]; subst. rewrite Hk; auto.
Qed.

Lemma insert_index_last (i : N) (k : jsstring) (v : value) (o : props) :
  Forall (fun k' => exists j, array_index k' = Some j /\ N.ltb j i = true)
         (keys o) ->
  insert_index i k v o = o ++ [(k, v)].
Proof.
  induction o as [|[k' v'] o IH]; simpl; [reflexivity|].
  intros H; inversion H as [|? ? [j [Hj Hlt]] Ho]; subst.
  rewrite Hj, Hlt, IH; auto.
Qed.

(** Creating a property whose key comes after all present keys appends it. *)
Lemma obj_define_last (k : jsstring) (v : value) (o : props) :
  Forall (fun k' => key_before k' k = true) (keys o) ->
  obj_define k v o = o ++ [(k, v)].
Proof.
  intros H. unfold obj_define.
  rewrite lookup_absent
    by (eapply Forall_impl; [|exact H]; intros; now apply key_before_neq).
  destruct (array_index k) as [i|] eqn:Hi; [|reflexivity].
  apply insert_index_last. eapply Forall_impl; [|exact H].
  intros k' Hb. unfold key_before in Hb. rewrite Hi in Hb.
  destruct (array_index k') as [j|]; [eauto | discriminate].
Qed.

Lemma obj_set_last (k : jsstring) (v : value) (o : props) :
  Forall (fun k' => key_before k' k = true) (keys o) ->
  JsString.eqb k (u "__proto__") = false ->
  obj_set k v o = o ++ [(k, v)].
Proof.
  intros H Hp. unfold obj_set.
  rewrite lookup_absent
    by (eapply Forall_impl; [|exact H]; intros; now apply key_before_neq).
  rewrite Hp. apply obj_define_last, H.
Qed.

Lemma mem_cons (k x : jsstring) (l : list jsstring) :
  mem k (x :: l) = JsString.eqb k x || mem k l.
Proof. reflexivity. Qed.

(** The loop of [copyToClipboard], from any point on: it appends the
    projection of each remaining entry. *)
Lemma filter_loop (k : jsstring) (rest done : props) :
  own_property_order (keys (done ++ rest)) = true ->
  mem (u "__proto__") (keys rest) = false ->
  fold_left (fun acc kv => obj_set (fst kv) (filtered_value k (snd kv)) acc)
            rest (map (project_entry k) done)
  = map (project_entry k) (done ++ rest).
Proof.
  revert done; induction rest as [|[key v] rest IH]; intros done Ho Hp.
  - rewrite app_nil_r; reflexivity.
  - change (keys ((key, v) :: rest)) with (key :: keys rest) in Hp.
    rewrite mem_cons in Hp. apply orb_false_iff in Hp as [Hk Hp].
    cbn [fold_left fst snd].
    assert (Hpre : Forall (fun k' => key_before k' key = true) (keys done)).
    { unfold keys in Ho |- *. rewrite map_app in Ho. simpl in Ho.
      exact (own_property_order_prefix _ _ _ Ho). }
    rewrite obj_set_last.
    + change [(key, filtered_value k v)]
        with (map (project_entry k) [(key, v)]).
      rewrite <- map_app, IH.
      * rewrite <- app_assoc; reflexivity.
      * rewrite <- app_assoc; exact Ho.
      * exact Hp.
    + rewrite keys_map_project; exact Hpre.
    + destruct (JsString.eqb key (u "__proto__")) eqn:E; [|reflexivity].
      apply jsstring_eqb_eq in E; rewrite E, jsstring_eqb_refl in Hk; discriminate.
Qed.

Lemma filteredResult_map (m : mode) (r : value) :
  own_property_order (keys (Object_entries r)) = true ->
  mem (u "__proto__") (keys (Object_entries r)) = false ->
  filteredResult m r = map (project_entry (mode_key m)) (Object_entries r).
Proof.
  intros Ho Hp. unfold filteredResult.
  exact (filter_loop (mode_key m) (Object_entries r) [] Ho Hp).
Qed.

Lemma filtered_value_member (k : jsstring) (v x : value) :
  typeof_object v = true -> Get v k = Some x -> filtered_value k v = x.
Proof.
  intros Ht Hg. unfold filtered_value, HasProperty.
  unfold Get in *. rewrite Hg, Ht.
  destruct v; try discriminate; reflexivity.
Qed.

(** The else branch of the loop: a value that is not an object, [null],
    or an object (or array) without the mode key is stored as it is. *)
Lemma filtered_value_unchanged (k : jsstring) (v : value) :
  typeof_object v = false \/ v = JNull \/ Get v k = None ->
  filtered_value k v = v.
Proof.
  unfold filtered_value, HasProperty, Get.
  intros [Ht | [-> | Hg]].
  - rewrite Ht, andb_false_r. reflexivity.
  - reflexivity.
  - rewrite Hg, andb_false_r. reflexivity.
Qed.

Lemma lookup_in_order (k : jsstring) (v : value) (o : props) :
  own_property_order (keys o) = true -> In (k, v) o -> lookup k o = Some v.
Proof.
  induction o as [|[k' v'] o IH]; simpl; [contradiction|].
  rewrite andb_true_iff. intros [Hall Ho] [E | Hin].
  - injection E as -> ->. rewrite jsstring_eqb_refl; reflexivity.
  - rewrite forallb_forall in Hall.
    assert (Hk : In k (keys o)) by (apply (in_map fst _ _ Hin)).
    rewrite (key_before_neq _ _ (Hall k Hk)). auto.
Qed.

Lemma lookup_map_project (m k : jsstring) (o : props) :
  lookup k (map (project_entry m) o) =
  option_map (filtered_value m) (lookup k o).
Proof.
  induction o as [|[k' v] o IH]; simpl; [reflexivity|].
  destruct (JsString.eqb k k'); [reflexivity | exact IH].
Qed.

(** C6, as the code has it.  For every truthy stored result whose entries
    do not include the key [__proto__], and for the modes ['en'] and
    ['zh'], the object that [copyToClipboard] serialises has the keys of
    the result, in the same order; a key whose value is an object with the
    mode key maps to that member, and every other key maps to its value
    unchanged: a value that is not an object, [null], and an object or
    array without the mode key.  The two cases cover every entry. *)
Theorem copyToClipboard_language_projection (m : mode) (a : App) :
  m <> All ->
  stored (result (ui a)) ->
  ToBoolean (result (ui a)) = true ->
  mem (u "__proto__") (keys (Object_entries (result (ui a)))) = false ->
  let entries := Object_entries (result (ui a)) in
  let filtered := filteredResult m (result (ui a)) in
  trace (copyToClipboard m a) =
    trace a ++ [ClipboardWrite (JSON.stringify (JObj filtered));
                SetTimeout_clearCopied 2000] /\
  keys filtered = keys entries /\
  (forall key v x, In (key, v) entries ->
     typeof_object v = true -> Get v (mode_key m) = Some x ->
     lookup key filtered = Some x) /\
  (forall key v, In (key, v) entries ->
     typeof_object v = false \/ v = JNull \/ Get v (mode_key m) = None ->
     lookup key filtered = Some v) /\
  (forall key v, In (key, v) entries ->
     (exists x, typeof_object v = true /\ Get v (mode_key m) = Some x) \/
     (typeof_object v = false \/ v = JNull \/ Get v (mode_key m) = None)).
Proof.
  intros Hm Hs Ht Hp entries filtered. subst entries filtered.
  pose proof (wf_entries_order _ (stored_wf _ Hs)) as Ho.
  rewrite (copyToClipboard_truthy m a Ht).
  rewrite (filteredResult_map m _ Ho Hp).
  split; [|split; [|split; [|split]]].
  - unfold emit; simpl. rewrite <- app_assoc.
    destruct m; [contradiction | |];
      unfold textToCopy; rewrite (filteredResult_map _ _ Ho Hp); reflexivity.
  - apply keys_map_project.
  - intros key v x Hin Hobj Hget.
    rewrite lookup_map_project, (lookup_in_order _ _ _ Ho Hin). simpl.
    rewrite (filtered_value_member _ v x Hobj Hget); reflexivity.
  - intros key v Hin Hother.
    rewrite lookup_map_project, (lookup_in_order _ _ _ Ho Hin). simpl.
    rewrite (filtered_value_unchanged _ v Hother); reflexivity.
  - intros key v _.
    destruct (Get v (mode_key m)) as [x|] eqn:Hg; [|right; right; right; reflexivity].
    destruct (typeof_object v) eqn:Hobj; [|right; left; reflexivity].
    left; exists x; split; reflexivity.
Qed.

(* ================================================================== *)
(** * The result renderer *)
(* ================================================================== *)

Lemma combine_map_snd {A B C : Type} (f : B -> C) (ks : list A)
  (xs : list B) :
  combine ks (map f xs) = map (fun kv => (fst kv, f (snd kv))) (combine ks xs).
Proof.
  revert xs; induction ks as [|k ks IH]; intros [|x xs]; simpl;
    try reflexivity.
  rewrite IH; reflexivity.
Qed.

(** [renderJson] on an object: [Object.entries], then one [div] per entry. *)
Lemma renderJson_object (obj : value) (isRoot : bool) :
  typeof_object obj = true -> obj <> JNull ->
  renderJson obj isRoot =
  render_object
    (map (fun kv => (fst kv, renderJson (snd kv) false))
         (Object_entries obj)).
Proof.
  intros Ht Hn. destruct obj; try discriminate; try contradiction.
  - simpl. rewrite combine_map_snd; reflexivity.
  - reflexivity.
Qed.

Lemma render_entries_length (len index : nat) (es : list (jsstring * node)) :
  List.length (render_entries len index es) = List.length es.
Proof.
  revert index; induction es as [|[k n] es IH]; intros index; simpl;
    [reflexivity | rewrite IH; reflexivity].
Qed.

Lemma render_entries_nth (len index i : nat) (es : list (jsstring * node))
  (k : jsstring) (n : node) :
  nth_error es i = Some (k, n) ->
  nth_error (render_entries len index es) i =
  Some (render_entry len (index + i) k n).
Proof.
  revert index i; induction es as [|[k' n'] es IH]; intros index [|i]; simpl;
    try discriminate.
  - intros H; injection H as -> ->. rewrite Nat.add_0_r; reflexivity.
  - intros H. rewrite (IH (S index) i H). rewrite Nat.add_succ_r; reflexivity.
Qed.

(** C9. [renderJson] is a function of the value alone ([isRoot] is not
    read).  A value that is not an object renders as a [span] holding the
    value, as an expression child, between two double quotes.  An object renders as an opening brace, one [div] per
    entry holding the quoted key, a colon, the rendering of the value and,
    except in the last entry, a comma, and a closing brace. *)
Theorem renderJson_structure :
  (forall obj isRoot, renderJson obj isRoot = renderJson obj false) /\
  (forall obj isRoot, typeof_object obj = false ->
     renderJson obj isRoot =
     Elem (u "span") (Some (u "text-emerald-300")) None
          [Text [34%N]; Expr obj; Text [34%N]]) /\
  (forall obj isRoot, typeof_object obj = true -> obj <> JNull ->
     let entries := Object_entries obj in
     let len := List.length entries in
     exists lines,
       renderJson obj isRoot =
       Elem (u "span") None None
            [ span "text-zinc-500" [Expr (JStr (u "{"))];
              Expr (if Nat.ltb 0 len then JStr [10%N] else JBool false);
              Nodes lines;
              span "text-zinc-500" [Expr (JStr (u "}"))] ] /\
       List.length lines = len /\
       forall index key v, nth_error entries index = Some (key, v) ->
         nth_error lines index =
         Some (Elem (u "div") (Some (u "pl-4")) (Some key)
                 [ span "text-indigo-300"
                        [Text [34%N]; Expr (JStr key); Text [34%N]];
                   span "text-zinc-500" [Text (u ": ")];
                   renderJson v false;
                   if Nat.ltb index (len - 1)
                   then span "text-zinc-500" [Text (u ",")]
                   else Expr (JBool false) ])).
Proof.
  split; [|split].
  - intros [] isRoot; reflexivity.
  - intros [] isRoot H; try discriminate; reflexivity.
  - intros obj isRoot Ht Hn entries len.
    set (es := map (fun kv => (fst kv, renderJson (snd kv) false)) entries).
    assert (Hlen : List.length es = len) by (apply length_map).
    exists (render_entries len 0 es). split; [|split].
    + rewrite (renderJson_object obj isRoot Ht Hn).
      fold entries; fold es. unfold render_object. rewrite Hlen. reflexivity.
    + rewrite render_entries_length; exact Hlen.
    + intros index key v Hnth.
      assert (He : nth_error es index = Some (key, renderJson v false)).
      { unfold es. rewrite nth_error_map, Hnth; reflexivity. }
      rewrite (render_entries_nth len 0 index es _ _ He). reflexivity.
Qed.

(* ================================================================== *)
(** * The properties at concrete inputs *)
(* ================================================================== *)

Example parse_empty_object : JSON.parse (u "{}") = Some (JObj []).
Proof. reflexivity. Qed.

Example parse_rejects_empty_text : JSON.parse [] = None.
Proof. reflexivity. Qed.

Example parse_cat_text : JSON.parse cat_text = Some cat_result.
Proof. vm_compute; reflexivity. Qed.

Example cat_result_shape : has_prompt_shape cat_result = true.
Proof. vm_compute; reflexivity. Qed.

Example parse_property_order :
  option_map (fun v => keys (Object_entries v))
    (JSON.parse (JSON.stringify
       (JObj [(u "b", JNull); (u "10", JNull); (u "2", JNull)])))
  = Some [u "2"; u "10"; u "b"].
Proof. vm_compute; reflexivity. Qed.

Example stringify_draft :
  JSON.stringify (JObj [(u "ratio", JStr (u "4:3")); (u "n", JNum 15 (-1))])
  = u "{" ++ [10%N]
    ++ u "  " ++ [34%N] ++ u "ratio" ++ [34%N] ++ u ": "
              ++ [34%N] ++ u "4:3" ++ [34%N] ++ u "," ++ [10%N]
    ++ u "  " ++ [34%N] ++ u "n" ++ [34%N] ++ u ": 1.5" ++ [10%N]
    ++ u "}".
Proof. vm_compute; reflexivity. Qed.

Example jsonStr_of_blank_text : jsonStr (Some (u "  ")) = u "{}".
Proof. reflexivity. Qed.

(** C1 at an empty and at a blank response.  The call completes without
    an exception, nothing is logged, and the stored result is the empty
    object: none of the ten keys is present. *)
Lemma analyzeImage_blank_response_counterexample :
  let a1 := analyzeImage png_url png_type (Fulfilled (Some [])) initial in
  let a2 := analyzeImage png_url png_type (Fulfilled (Some (u "  "))) initial in
  (result (ui a1) = JObj [] /\
   is_error_result (result (ui a1)) = false /\
   trace a1 = [GenerateContent (analysis_request png_url png_type)] /\
   has_prompt_shape (result (ui a1)) = false) /\
  (result (ui a2) = JObj [] /\ has_prompt_shape (result (ui a2)) = false).
Proof. vm_compute. repeat split. Qed.

Lemma analyzeImage_stores_parsed_response_witness :
  JSON.parse (jsonStr (Some cat_text)) = Some cat_result /\
  result (ui (analyzeImage png_url png_type (Fulfilled (Some cat_text))
                           initial)) = cat_result.
Proof.
  assert (H : JSON.parse (jsonStr (Some cat_text)) = Some cat_result)
    by (vm_compute; reflexivity).
  split; [exact H|].
  exact (proj1 (analyzeImage_stores_parsed_response
                  png_url png_type (Some cat_text) cat_result initial H)).
Defined.

Lemma handleModify_throw_keeps_result_witness :
  await_json (Rejected (u "503")) = Throw (ApiError (u "503")) /\
  result (ui (handleModify (Rejected (u "503")) ready)) = draft_result.
Proof.
  split; [reflexivity|].
  exact (proj1 (handleModify_throw_keeps_result
                  ready (Rejected (u "503")) (ApiError (u "503")) eq_refl)).
Defined.

Lemma handleModify_noop_witness :
  whitespace_only (modifyInstruction (ui (setModifyInstruction (u "  ") ready)))
    = true /\
  handleModify (Fulfilled (Some cat_text))
               (setModifyInstruction (u "  ") ready)
  = setModifyInstruction (u "  ") ready.
Proof.
  split; [reflexivity|].
  exact (proj2 (handleModify_noop (setModifyInstruction (u "  ") ready)
                  (Fulfilled (Some cat_text)) (or_introl eq_refl))).
Defined.

Lemma handleModify_success_witness :
  handleModify_returns (ui ready) = false /\
  JSON.parse (jsonStr (Some cat_text)) = Some cat_result /\
  result (ui (handleModify (Fulfilled (Some cat_text)) ready)) = cat_result /\
  modifyInstruction (ui (handleModify (Fulfilled (Some cat_text)) ready)) = [].
Proof.
  assert (Hg : handleModify_returns (ui ready) = false)
    by (vm_compute; reflexivity).
  assert (Hp : JSON.parse (jsonStr (Some cat_text)) = Some cat_result)
    by (vm_compute; reflexivity).
  split; [exact Hg|]. split; [exact Hp|].
  destruct (handleModify_success ready (Some cat_text) cat_result Hg Hp)
    as [H1 [H2 _]].
  split; [exact H1 | exact H2].
Defined.

Lemma analyzeImage_error_path_witness :
  await_json (Fulfilled (Some (u "{"))) = Throw (SyntaxError (u "{")) /\
  result (ui (analyzeImage png_url png_type (Fulfilled (Some (u "{")))
                           initial)) = analysis_error.
Proof.
  split; [reflexivity|].
  exact (proj1 (proj2 (proj2 (analyzeImage_error_path
                                png_url png_type (Fulfilled (Some (u "{")))
                                initial))
                      (SyntaxError (u "{")) eq_refl)).
Defined.

Lemma copyToClipboard_null_noop_witness :
  result (ui initial) = JNull /\ copyToClipboard Zh initial = initial.
Proof.
  split; [reflexivity | exact (copyToClipboard_null_noop Zh initial eq_refl)].
Defined.

(** C5 at the stored result [false], which the analysis stores for the
    response text [false]: it is not [null], and nothing is written. *)
Lemma copyToClipboard_all_false_counterexample :
  let a := analyzeImage png_url png_type (Fulfilled (Some (u "false")))
                        initial in
  result (ui a) = JBool false /\
  result (ui a) <> JNull /\
  copyToClipboard All a = a.
Proof. vm_compute. repeat split. discriminate. Qed.

Lemma copyToClipboard_all_writes_stringify_witness :
  ToBoolean (result (ui ready)) = true /\
  trace (copyToClipboard All ready) =
    trace ready ++ [ClipboardWrite (JSON.stringify draft_result);
                    SetTimeout_clearCopied 2000].
Proof.
  split; [reflexivity|].
  exact (proj1 (copyToClipboard_all_writes_stringify ready eq_refl)).
Defined.

(** C6 at two stored results.  For the number [0], which is not [null],
    no object is serialised at all.  For an object with a member named
    [__proto__] the serialised object lacks that key. *)
Lemma copyToClipboard_projection_counterexample :
  (let a := analyzeImage png_url png_type (Fulfilled (Some (u "0")))
                         initial in
   result (ui a) = JNum 0 0 /\ result (ui a) <> JNull /\
   copyToClipboard En a = a) /\
  (let a := analyzeImage png_url png_type
                         (Fulfilled (Some (JSON.stringify proto_result)))
                         initial in
   result (ui a) = proto_result /\
   keys (Object_entries (result (ui a))) = [u "subject"; u "__proto__"] /\
   keys (filteredResult En (result (ui a))) = [u "subject"] /\
   trace (copyToClipboard En a) =
     [GenerateContent (analysis_request png_url png_type);
      ClipboardWrite (JSON.stringify (JObj [(u "subject", JStr (u "A cat"))]));
      SetTimeout_clearCopied 2000]).
Proof. vm_compute. repeat split. discriminate. Qed.

Lemma copyToClipboard_language_projection_witness :
  Zh <> All /\
  stored (result (ui mixed)) /\
  ToBoolean (result (ui mixed)) = true /\
  mem (u "__proto__") (keys (Object_entries (result (ui mixed)))) = false /\
  keys (filteredResult Zh (result (ui mixed)))
    = [u "subject"; u "ratio"; u "note"; u "caption"; u "tags"] /\
  lookup (u "subject") (filteredResult Zh (result (ui mixed)))
    = Some (JStr [29399%N]) /\
  lookup (u "ratio") (filteredResult Zh (result (ui mixed)))
    = Some (JStr (u "4:3")) /\
  lookup (u "note") (filteredResult Zh (result (ui mixed))) = Some JNull /\
  lookup (u "caption") (filteredResult Zh (result (ui mixed)))
    = Some (JObj [(u "en", JStr (u "hi"))]) /\
  lookup (u "tags") (filteredResult Zh (result (ui mixed)))
    = Some (JArr [JStr (u "pet")]).
Proof.
  assert (Hm : Zh <> All) by discriminate.
  assert (Hs : stored (result (ui mixed))) by (apply reachable_stored).
  destruct (copyToClipboard_language_projection Zh mixed Hm Hs
              eq_refl eq_refl) as [_ [Hk [Hobj [Hother _]]]].
  split; [exact Hm|]. split; [exact Hs|]. do 2 (split; [reflexivity|]).
  split; [exact Hk|].
  split; [|split; [|split; [|split]]].
  - apply (Hobj (u "subject") (bilingual (u "A dog") [29399%N]));
      [left; reflexivity | reflexivity | reflexivity].
  - apply (Hother (u "ratio") (JStr (u "4:3")));
      [right; left; reflexivity | left; reflexivity].
  - apply (Hother (u "note") JNull);
      [do 2 right; left; reflexivity | right; left; reflexivity].
  - apply (Hother (u "caption") (JObj [(u "en", JStr (u "hi"))]));
      [do 3 right; left; reflexivity | right; right; reflexivity].
  - apply (Hother (u "tags") (JArr [JStr (u "pet")]));
      [do 4 right; left; reflexivity | right; right; reflexivity].
Defined.

Lemma renderJson_structure_witness :
  renderJson (JObj [(u "ratio", JStr (u "4:3"))]) true =
  Elem (u "span") None None
    [ span "text-zinc-500" [Expr (JStr (u "{"))];
      Expr (JStr [10%N]);
      Nodes [Elem (u "div") (Some (u "pl-4")) (Some (u "ratio"))
               [ span "text-indigo-300"
                      [Text [34%N]; Expr (JStr (u "ratio")); Text [34%N]];
                 span "text-zinc-500" [Text (u ": ")];
                 span "text-emerald-300"
                      [Text [34%N]; Expr (JStr (u "4:3")); Text [34%N]];
                 Expr (JBool false) ]];
      span "text-zinc-500" [Expr (JStr (u "}"))] ].
Proof.
  rewrite (proj1 renderJson_structure). reflexivity.
Defined.
